(** * Blob aggregation of the RDF body-parts detector

    A shallow embedding of [gpu/people/src/bodyparts_detector.cpp]: the
    constructor, [allocate_buffers] and the host-side part of [process]
    (the former [sortIndicesToBlob2]), with the properties of the blob
    matrix it produces.

    Conventions of the embedding
    - [int] is a [Z] wrapped to 32 bits by [to_int] wherever the source
      computes or converts one; [size_t] indices and sizes are [nat]. The
      sizes of [allocate_buffers] are the exception: they are computed by
      [checked], which has no result where the [int] expression overflows.
    - [float] is IEEE-754 binary32, as [spec_float] with precision 24 and
      maximal exponent 128 (round to nearest even).
    - a [std::vector] is a [list]; [v[i]] is stdpp's lookup [v !! i], and an
      access out of range (undefined behaviour in the source) makes the
      embedded function return [None].
    - the device stages (classification, smoothing, connected components)
      are external: their downloaded results are arguments of [process].
    - memory that the program reads without having written it (coefficient
      3 of the mean of a new blob) is the field [remains_] of the detector,
      over which the theorems quantify. *)

From Stdlib Require Import ZArith Lia Floats.SpecFloat.
From stdpp Require Import base numbers option list strings sorting.

(** ** Machine integers *)

Definition INT_MAX : Z := 2147483647.

(** Conversion to a 32-bit two's complement [int]. *)
Definition to_int (v : Z) : Z := ((v + 2147483648) mod 4294967296 - 2147483648)%Z.

(** The value of an [int] expression that stays in range. Signed overflow is
    undefined: like a subscript out of range, it leaves the embedded
    function without a result. (An implementation that wraps would leave
    buffers of 0, 1 and 3 entries for 65536 x 65536 pixels; the embedding
    does not follow it there, and the theorems on sizes assume [fits].) *)
Definition checked (v : Z) : option Z :=
  if decide (- INT_MAX - 1 ≤ v ≤ INT_MAX)%Z then Some v else None.

(** ** Single precision floats *)

Module F32.
Definition prec : Z := 24.
Definition emax : Z := 128.
Definition float := spec_float.
Definition zero : float := S754_zero false.
Definition add : float → float → float := SFadd prec emax.
Definition div : float → float → float := SFdiv prec emax.
(** [(float) i] for an [int] i. *)
Definition of_int (i : Z) : float := binary_normalize prec emax i 0 false.
(** [a != 0]: unordered operands (NaN) compare unequal. *)
Definition neq0 (a : float) : bool := negb (SFeqb a zero).
End F32.

Abbreviation float := F32.float.

(** ** Data *)

Module PointXYZ.
Record t := mk { x : float; y : float; z : float }.
End PointXYZ.

Module float3.
Record t := mk { x : float; y : float; z : float }.
Definition zero : t := mk F32.zero F32.zero F32.zero.
End float3.

(** [Eigen::Vector4f]; [process] writes coefficients 0, 1 and 2 only. *)
Module Vector4f.
Record t := mk { c0 : float; c1 : float; c2 : float; c3 : float }.
Definition zero : t := mk F32.zero F32.zero F32.zero F32.zero.
(** The coefficients that [process] writes, with [+0] in place of the
    fourth. *)
Definition written (v : t) : t := mk (c0 v) (c1 v) (c2 v) F32.zero.
End Vector4f.

(** The fields of [Blob2] that [process] writes. [indices] is
    [indices.indices], a [std::vector<int>]. *)
Module Blob2.
Record t := mk {
  label : nat;
  mean : Vector4f.t;
  indices : list Z;
  id : Z;
  lid : Z }.
(** The element [std::vector::resize] appends, in storage whose coefficient
    3 of the mean holds [c3]: the index vector is empty and the constructor
    of [Eigen::Vector4f] leaves the coefficients as they are. [label],
    coefficients 0..2, [id] and [lid] are written before they are read
    (lines 221-224 and 235-236); coefficient 3 never is. *)
Definition constructed (c3 : float) : t :=
  mk 0 (Vector4f.mk F32.zero F32.zero F32.zero c3) [] 0 0.
Definition push_back (b : t) (k : Z) : t :=
  mk (label b) (mean b) (indices b ++ [k]) (id b) (lid b).
(** The blob without what the storage left in it. *)
Definition written (b : t) : t :=
  mk (label b) (Vector4f.written (mean b)) (indices b) (id b) (lid b).
End Blob2.

Abbreviation BlobMatrix := (list (list Blob2.t)).

(** The host-side members of [RDFBodyPartsDetector]. [means_storage_] is a
    [std::vector<float>] read three floats at a time through a [float3*];
    it is kept here as a list of [float3].

    [remains_] is not a member of the class. [remains_ l b] is what
    coefficient 3 of the mean holds when a blob is constructed at
    [blob_matrix_[l][b]]: memory the program has not written. [process]
    hands it on unchanged, and no theorem relates the remains of two
    calls. *)
Record RDFBodyPartsDetector := mkDetector {
  max_cluster_size_ : Z;
  cluster_tolerance_ : float;
  lmap_host_ : list nat;
  dst_labels_ : list Z;
  region_sizes_ : list Z;
  remap_ : list Z;
  means_storage_ : list float3.t;
  blob_matrix_ : BlobMatrix;
  remains_ : nat → nat → float }.

Definition MAX_CLUST_SIZE : Z := 25000.
(** [0.05f] = 13421773 * 2^-28. *)
Definition CLUST_TOL : float := S754_finite false 13421773 (-28).

(** ** Loops and array views *)

(** [for (k in ks) s = body(k, s)], stopping at the first failure. *)
Fixpoint for_each {S : Type} (body : nat → S → option S) (ks : list nat) (s : S)
  : option S :=
  match ks with
  | [] => Some s
  | k :: ks' => s' ← body k s; for_each body ks' s'
  end.

(** [std::fill(v.begin(), v.end(), c)]. *)
Definition fill {A : Type} (v : list A) (c : A) : list A := replicate (length v) c.

(** A non-negative [int] used as a subscript. *)
Definition subscript (i : Z) : option nat :=
  if decide (0 ≤ i)%Z then Some (Z.to_nat i) else None.

(** [means = (float3* )&means_storage_[3]] and [rsizes = &region_sizes_[1]]:
    element [cc] of the view is element [cc + 1] of the storage, so that
    [cc = -1] has a slot of its own. *)
Definition shifted (cc : Z) : option nat := subscript (cc + 1).

(** [means[cc] += p], coordinate by coordinate. *)
Definition add_point (m : float3.t) (p : PointXYZ.t) : float3.t :=
  float3.mk (F32.add (float3.x m) (PointXYZ.x p))
            (F32.add (float3.y m) (PointXYZ.y p))
            (F32.add (float3.z m) (PointXYZ.z p)).

(** [means[cc] / rsizes[cc]] written into coefficients 0..2 of [mean]: the
    [int] count is converted to [float] before each division. *)
Definition centroid (m : float3.t) (r : Z) (old : Vector4f.t) : Vector4f.t :=
  Vector4f.mk (F32.div (float3.x m) (F32.of_int r))
              (F32.div (float3.y m) (F32.of_int r))
              (F32.div (float3.z m) (F32.of_int r))
              (Vector4f.c3 old).

(** The condition of line 212 on the accumulated values of one component. *)
Definition is_valid (min_pts max_size : Z) (m : float3.t) (r : Z) : bool :=
  F32.neq0 (float3.z m) && (min_pts <=? r)%Z && (r <=? max_size)%Z.

Section Detector.

(** [NUM_PARTS] is declared in a header outside this file. *)
Variable NUM_PARTS : nat.

(** ** allocate_buffers *)

(** [rows] and [cols] are [int] arguments, and the sizes are the [int]
    expressions [rows * cols] (lines 130, 132, 134), [rows * cols + 1] (line
    133) and [(cols * rows + 1) * 3] (line 139). The last one counts floats:
    the list of [float3] has a third of it. *)
Definition allocate_buffers (rows cols : nat) (d : RDFBodyPartsDetector)
  : option RDFBodyPartsDetector :=
  r ← checked (Z.of_nat rows);
  c ← checked (Z.of_nat cols);
  n ← checked (r * c);
  n1 ← checked (n + 1);
  m ← checked (c * r);
  m1 ← checked (m + 1);
  m3 ← checked (m1 * 3);
  Some {| max_cluster_size_ := max_cluster_size_ d;
          cluster_tolerance_ := cluster_tolerance_ d;
          lmap_host_ := resize (Z.to_nat n) 0 (lmap_host_ d);
          dst_labels_ := resize (Z.to_nat n) 0%Z (dst_labels_ d);
          region_sizes_ := resize (Z.to_nat n1) 0%Z (region_sizes_ d);
          remap_ := resize (Z.to_nat n) 0%Z (remap_ d);
          means_storage_ := resize (Z.to_nat m3 `div` 3) float3.zero (means_storage_ d);
          blob_matrix_ := (λ _, []) <$> resize NUM_PARTS [] (blob_matrix_ d);
          remains_ := remains_ d |}.

(** ** The constructor *)

(** What the constructor acquires, in order: the device-side forest
    evaluator, one device tree per loaded file, the colour table and the
    frame buffers. *)
Inductive resource :=
  | MultiTreeLiveProc (rows cols : nat)
  | CUDATree (height : Z)
  | ColorMap
  | FrameBuffers (rows cols : nat).

Inductive construction :=
  | AssertionFailed
  | LoadTreeThrew
  | SizeOverflowed
  | Constructed (d : RDFBodyPartsDetector).

(** The loop over [tree_files]; [loadTree] is external and returns the
    height of the tree, or [None] where it throws. *)
Fixpoint load_trees (loadTree : string → option Z) (tree_files : list string)
  : bool * list resource :=
  match tree_files with
  | [] => (true, [])
  | f :: fs =>
      match loadTree f with
      | None => (false, [])
      | Some height =>
          let '(ok, trees) := load_trees loadTree fs in (ok, CUDATree height :: trees)
      end
  end.

(** The members as the initialiser list and the default constructors leave
    them, in memory that holds [heap]. *)
Definition initial (heap : nat → nat → float) : RDFBodyPartsDetector :=
  mkDetector MAX_CLUST_SIZE CLUST_TOL [] [] [] [] [] [] heap.

(** The same in zeroed memory. *)
Definition fresh : RDFBodyPartsDetector := initial (λ _ _, F32.zero).

(** [assert] is the macro of [<cassert>]: with [NDEBUG] defined it expands to
    nothing. The result pairs the outcome with the resources acquired up to
    it. [heap] is what the memory of the new detector holds. *)
Definition constructor (NDEBUG : bool) (loadTree : string → option Z)
    (tree_files : list string) (rows cols : nat) (heap : nat → nat → float)
  : construction * list resource :=
  if negb NDEBUG && bool_decide (tree_files = []) then (AssertionFailed, [])
  else
    let impl := [MultiTreeLiveProc rows cols] in
    match load_trees loadTree tree_files with
    | (false, trees) => (LoadTreeThrew, impl ++ trees)
    | (true, trees) =>
        match allocate_buffers rows cols (initial heap) with
        | Some d =>
            (Constructed d, impl ++ trees ++ [ColorMap; FrameBuffers rows cols])
        | None => (SizeOverflowed, impl ++ trees ++ [ColorMap])
        end
    end.

(** ** process: the aggregation block *)

(** Body of the first loop (lines 195-203). *)
Definition accumulate (cloud : list PointXYZ.t) (dst_labels : list Z)
    (k : nat) (s : list float3.t * list Z) : option (list float3.t * list Z) :=
  let '(means, rsizes) := s in
  p ← cloud !! k;
  cc ← dst_labels !! k;
  i ← shifted cc;
  m ← means !! i;
  r ← rsizes !! i;
  Some (<[i := add_point m p]> means, <[i := to_int (r + 1)]> rsizes).

(** [means[-1].z = 0] (line 205). *)
Definition invalidate (means : list float3.t) : option (list float3.t) :=
  i ← shifted (-1);
  m ← means !! i;
  Some (<[i := float3.mk (float3.x m) (float3.y m) F32.zero]> means).

(** The condition of line 212, evaluated left to right: [rsizes[cc]] is read
    only where [means[cc].z != 0]. *)
Definition test (means : list float3.t) (rsizes : list Z)
    (min_pts_per_cluster max_size : Z) (cc : Z) : option bool :=
  i ← shifted cc;
  m ← means !! i;
  if F32.neq0 (float3.z m) then
    r ← rsizes !! i;
    Some ((min_pts_per_cluster <=? r)%Z && (r <=? max_size)%Z)
  else Some false.

(** [means[cc]] and [rsizes[cc]] as lines 222-225 read them. *)
Definition stats (means : list float3.t) (rsizes : list Z) (cc : Z)
  : option (float3.t * Z) :=
  i ← shifted cc;
  m ← means !! i;
  r ← rsizes !! i;
  Some (m, r).

(** Lines 217-225: a new blob at the end of the label's row, constructed in
    storage that holds [remains label] at each position. *)
Definition create (remains : nat → nat → float) (means : list float3.t)
    (rsizes : list Z) (label : nat) (cc : Z)
    (j : nat) (remap : list Z) (row : list Blob2.t)
  : option (Z * list Z * list Blob2.t) :=
  let ccindex := to_int (Z.of_nat (length row)) in
  size ← subscript (to_int (ccindex + 1));
  let row := resize size (Blob2.constructed (remains label (length row))) row in
  let remap := <[j := ccindex]> remap in
  c ← subscript ccindex;
  b ← row !! c;
  '(m, r) ← stats means rsizes cc;
  let b := Blob2.mk label (centroid m r (Blob2.mean b)) (Blob2.indices b)
                    (Blob2.id b) (Blob2.lid b) in
  Some (ccindex, remap, <[c := b]> row).

(** Body of the second loop (lines 207-229). *)
Definition materialize (remains : nat → nat → float)
    (lmap_host : list nat) (dst_labels : list Z)
    (means : list float3.t) (rsizes : list Z) (min_pts_per_cluster max_size : Z)
    (k : nat) (s : list Z * BlobMatrix) : option (list Z * BlobMatrix) :=
  let '(remap, bm) := s in
  label ← lmap_host !! k;
  cc ← dst_labels !! k;
  valid ← test means rsizes min_pts_per_cluster max_size cc;
  if (valid : bool) then
    j ← subscript cc;
    ccindex ← remap !! j;
    row ← bm !! label;
    '(ccindex, remap, row) ←
      (if decide (ccindex = -1)%Z then create remains means rsizes label cc j remap row
       else Some (ccindex, remap, row));
    c ← subscript ccindex;
    b ← row !! c;
    let b := Blob2.push_back b (to_int (Z.of_nat k)) in
    Some (remap, <[label := <[c := b]> row]> bm)
  else Some (remap, bm).

(** Lines 231-237: [id] runs over the whole matrix, [lid] restarts in each
    row. *)
Fixpoint number_row (id : Z) (b : nat) (row : list Blob2.t) : Z * list Blob2.t :=
  match row with
  | [] => (id, [])
  | blob :: rest =>
      let blob := Blob2.mk (Blob2.label blob) (Blob2.mean blob)
                           (Blob2.indices blob) id (to_int (Z.of_nat b)) in
      let '(id, rest) := number_row (to_int (id + 1)) (S b) rest in
      (id, blob :: rest)
  end.

Fixpoint number_blobs (id : Z) (bm : BlobMatrix) : Z * BlobMatrix :=
  match bm with
  | [] => (id, [])
  | row :: rows =>
      let '(id, row) := number_row id 0 row in
      let '(id, rows) := number_blobs id rows in
      (id, row :: rows)
  end.

(** [process] from the download of the device results on. [labels_smoothed]
    and [comps] are the contents of the device arrays [labels_smoothed_] and
    [comps_]; [download] replaces the host vector by them. Lines 189-190
    form the views by subscripting [means_storage_[3]], the first float of
    the second [float3], and [region_sizes_[1]]: both elements must exist.
    The call of [buildRelations] that follows is external. *)
Definition process (d : RDFBodyPartsDetector) (rows cols : nat)
    (labels_smoothed : list nat) (comps : list Z) (cloud : list PointXYZ.t)
    (min_pts_per_cluster : Z) : option RDFBodyPartsDetector :=
  d ← allocate_buffers rows cols d;
  let lmap_host := labels_smoothed in
  let dst_labels := comps in
  let remap := fill (remap_ d) (-1)%Z in
  let region_sizes := fill (region_sizes_ d) 0%Z in
  let means_storage := fill (means_storage_ d) float3.zero in
  _ ← means_storage !! 1;
  _ ← region_sizes !! 1;
  let bm := (λ _, []) <$> blob_matrix_ d in
  '(means, rsizes) ←
    for_each (accumulate cloud dst_labels) (seq 0 (length dst_labels))
             (means_storage, region_sizes);
  means ← invalidate means;
  '(remap, bm) ←
    for_each (materialize (remains_ d) lmap_host dst_labels means rsizes
                          min_pts_per_cluster (max_cluster_size_ d))
             (seq 0 (length dst_labels)) (remap, bm);
  let bm := (number_blobs 0 bm).2 in
  Some {| max_cluster_size_ := max_cluster_size_ d;
          cluster_tolerance_ := cluster_tolerance_ d;
          lmap_host_ := lmap_host;
          dst_labels_ := dst_labels;
          region_sizes_ := rsizes;
          remap_ := remap;
          means_storage_ := means;
          blob_matrix_ := bm;
          remains_ := remains_ d |}.

End Detector.

(** ** What a frame determines

    The quantities the properties of [process] are stated with, defined on
    the inputs alone: [lmap] is the label grid, [dst] the component grid and
    [cloud] the point cloud, all in raster order. *)

Section Frame.

Variable lmap : list nat.
Variable dst : list Z.
Variable cloud : list PointXYZ.t.
Variables min_pts max_size : Z.

(** The pixels of component [cc] among the first [k], in raster order. *)
Definition pixels_of (cc : Z) (k : nat) : list nat :=
  filter (λ j, dst !! j = Some cc) (seq 0 k).

Definition members (cc : Z) (k : nat) : list Z := Z.of_nat <$> pixels_of cc k.

Definition count_of (cc : Z) (k : nat) : Z := Z.of_nat (length (pixels_of cc k)).

Definition point_at (j : nat) : PointXYZ.t :=
  default (PointXYZ.mk F32.zero F32.zero F32.zero) (cloud !! j).

(** The points of the component added up from [+0] in raster order. *)
Definition sum_of (cc : Z) (k : nat) : float3.t :=
  foldl (λ a j, add_point a (point_at j)) float3.zero (pixels_of cc k).

(** A component survives the filter when it is not the sentinel and its
    accumulated values pass the test of the second loop. *)
Definition survives (cc : Z) : bool :=
  bool_decide (cc ≠ -1)%Z &&
  is_valid min_pts max_size (sum_of cc (length dst)) (count_of cc (length dst)).

(** The count alone is within the bounds. *)
Definition count_within_bounds (cc : Z) : bool :=
  bool_decide (cc ≠ -1)%Z &&
  (min_pts <=? count_of cc (length dst))%Z && (count_of cc (length dst) <=? max_size)%Z.

(** The mean of the component written over [old]: sum over count in
    coefficients 0..2, in single precision. *)
Definition mean_of (cc : Z) (old : Vector4f.t) : Vector4f.t :=
  centroid (sum_of cc (length dst)) (count_of cc (length dst)) old.

Section Alive.

(** [alive] says which components pass the filter. *)
Variable alive : Z → bool.

Definition pixel_alive (j : nat) : bool :=
  match dst !! j with
  | Some cc => alive cc
  | None => false
  end.

(** The pixels among the first [k] whose component passes. *)
Definition alive_pixels (k : nat) : list nat := filter (λ j, pixel_alive j) (seq 0 k).

(** Pixel [j] carries label [l], is the first pixel of its component in
    raster order, and the component passes. *)
Definition is_founder (l j : nat) : bool :=
  match lmap !! j, dst !! j with
  | Some l', Some cc => bool_decide (l' = l) && bool_decide (cc ∉ take j dst) && alive cc
  | _, _ => false
  end.

(** The founders with label [l] among the first [k] pixels, in raster
    order: one for each passing component first met under label [l]. *)
Definition founders (l k : nat) : list nat := filter (λ j, is_founder l j) (seq 0 k).

End Alive.

End Frame.

(** The grids of a [rows] x [cols] frame: at least one pixel, so that the
    views of lines 189-190 exist; a pixel count for which the sizes of
    [allocate_buffers] fit an [int], the largest being that of line 139;
    equal pixel counts; and component ids from [-1] up to the pixel count. *)
Record well_formed (rows cols : nat) (lmap : list nat) (dst : list Z)
    (cloud : list PointXYZ.t) : Prop := {
  wf_pixels : 1 ≤ rows * cols;
  wf_int : ((Z.of_nat (rows * cols) + 1) * 3 ≤ INT_MAX)%Z;
  wf_lmap : length lmap = rows * cols;
  wf_dst : length dst = rows * cols;
  wf_cloud : length cloud = rows * cols;
  wf_range : Forall (λ cc, -1 ≤ cc < Z.of_nat (rows * cols))%Z dst }.

(** What the component labeller guarantees: the pixels of a component other
    than the sentinel share one label, and it is a body part. *)
Definition label_homogeneous (NUM_PARTS : nat) (lmap : list nat) (dst : list Z) : Prop :=
  ∀ j cc l, dst !! j = Some cc → cc ≠ (-1)%Z → lmap !! j = Some l →
    l < NUM_PARTS ∧ ∀ j', dst !! j' = Some cc → lmap !! j' = Some l.

(** The number of members over all blobs. *)
Definition total_members (bm : BlobMatrix) : nat :=
  sum_list_with (λ b, length (Blob2.indices b)) (concat bm).

(** ** Frames used in the examples *)

Definition pt (a b c : Z) : PointXYZ.t :=
  PointXYZ.mk (F32.of_int a) (F32.of_int b) (F32.of_int c).

(** Scenario A of the specification: two labels, two components. *)
Definition labels_A : list nat := [0; 0; 1; 1].
Definition comps_A : list Z := [0; 0; 1; 1]%Z.
Definition cloud_A : list PointXYZ.t := [pt 0 0 0; pt 2 0 0; pt 5 5 5; pt 7 5 5].
Definition detector_A : RDFBodyPartsDetector :=
  mkDetector 10 CLUST_TOL [] [] [] [] [] [] (λ _ _, F32.zero).

(** The same grid one metre away from the sensor. *)
Definition cloud_B : list PointXYZ.t := [pt 0 0 1; pt 2 0 1; pt 5 5 5; pt 7 5 5].

(** Component 0 straddles labels 0 and 1. *)
Definition labels_S : list nat := [0; 1; 1; 1].
Definition comps_S : list Z := [0; 1; 1; 0]%Z.

(** Two background pixels around a component of two pixels. *)
Definition labels_M : list nat := [3; 1; 1; 3].
Definition comps_M : list Z := [-1; 1; 1; -1]%Z.

(** A frame without components. *)
Definition comps_none : list Z := [-1; -1; -1; -1]%Z.

(** Three components under two labels, met in an order that is not that
    of their ids. *)
Definition labels_T : list nat := [1; 0; 1; 1].
Definition comps_T : list Z := [3; 0; 2; 2]%Z.

(** One component of three pixels and one of a single pixel. *)
Definition labels_U : list nat := [1; 1; 1; 1].
Definition comps_U : list Z := [1; 1; 1; 0]%Z.

(** A detector whose buffers hold the remains of another frame, in memory
    that holds sevens. *)
Definition detector_used : RDFBodyPartsDetector :=
  mkDetector MAX_CLUST_SIZE CLUST_TOL [7; 7] [3; 3; 3]%Z [9; 9]%Z [5]%Z
    [float3.mk (F32.of_int 1) (F32.of_int 1) (F32.of_int 1)]
    [[Blob2.mk 3 Vector4f.zero [4]%Z 8 8]; []]
    (λ _ _, F32.of_int 7).


(** Two blobs that differ in [id] and [lid] at most. *)
Definition same_content (b b' : Blob2.t) : Prop :=
  Blob2.label b = Blob2.label b' ∧ Blob2.mean b = Blob2.mean b' ∧
  Blob2.indices b = Blob2.indices b'.


(** The sizes of [allocate_buffers] fit an [int]. *)
Definition fits (rows cols : nat) : Prop :=
  (Z.of_nat rows ≤ INT_MAX)%Z ∧ (Z.of_nat cols ≤ INT_MAX)%Z ∧
  ((Z.of_nat (rows * cols) + 1) * 3 ≤ INT_MAX)%Z.

(** ** Loop invariants *)

(** First loop, after [k] pixels: slot [i] of both arrays holds the sum and
    the count of component [i - 1], and every component met has a slot. *)
Definition accumulated (dst : list Z) (cloud : list PointXYZ.t) (size k : nat)
    (s : list float3.t * list Z) : Prop :=
  length s.1 = size ∧ length s.2 = size ∧
  (∀ i, i < size →
    s.1 !! i = Some (sum_of dst cloud (Z.of_nat i - 1) k) ∧
    s.2 !! i = Some (count_of dst (Z.of_nat i - 1) k)) ∧
  (∀ j cc, j < k → dst !! j = Some cc → (-1 ≤ cc)%Z ∧ (cc + 1 < Z.of_nat size)%Z).

Section SecondLoop.

Variable remains : nat → nat → float.
Variable lmap : list nat.
Variable dst : list Z.
Variable means : list float3.t.
Variable rsizes : list Z.
Variables min_pts max_size : Z.

(** The test of the second loop as a predicate on components. *)
Definition passes (cc : Z) : bool :=
  match stats means rsizes cc with
  | Some (m, r) => is_valid min_pts max_size m r
  | None => false
  end.

(** The blob the loop creates at pixel [k] in storage that holds [c3], with
    its first member. *)
Definition new_blob (label : nat) (m : float3.t) (r : Z) (c3 : float) (k : nat)
  : Blob2.t :=
  Blob2.mk label (centroid m r (Blob2.mean (Blob2.constructed c3))) [Z.of_nat k] 0 0.

(** The three ways through the body of the second loop at pixel [k]. *)
Inductive materialize_case (k : nat) (remap : list Z) (bm : BlobMatrix)
  : list Z * BlobMatrix → Prop :=
  | case_skip label cc :
      lmap !! k = Some label → dst !! k = Some cc → passes cc = false →
      materialize_case k remap bm (remap, bm)
  | case_create label cc m r c row :
      lmap !! k = Some label → dst !! k = Some cc →
      stats means rsizes cc = Some (m, r) → is_valid min_pts max_size m r = true →
      subscript cc = Some c → remap !! c = Some (-1)%Z → bm !! label = Some row →
      materialize_case k remap bm
        (<[c := Z.of_nat (length row)]> remap,
         <[label := row ++ [new_blob label m r (remains label (length row)) k]]> bm)
  | case_append label cc c i row b :
      lmap !! k = Some label → dst !! k = Some cc → passes cc = true →
      subscript cc = Some c → remap !! c = Some (Z.of_nat i) →
      bm !! label = Some row → row !! i = Some b →
      materialize_case k remap bm
        (remap, <[label := <[i := Blob2.push_back b (Z.of_nat k)]> row]> bm).

(** Coefficient 3 of the mean of every blob is what its storage held. *)
Definition untouched (bm : BlobMatrix) : Prop :=
  ∀ l row i b, bm !! l = Some row → row !! i = Some b →
    Vector4f.c3 (Blob2.mean b) = remains l i.

(** A member of a blob of row [l] is a pixel before [k] that carries label
    [l] and whose component passes. *)
Definition member_ok (l k : nat) (m : Z) : Prop :=
  ∃ j, m = Z.of_nat j ∧ j < k ∧ lmap !! j = Some l ∧ pixel_alive dst passes j = true.

(** A blob of row [l]: its label is [l], its members are as above, and
    coefficients 0..2 of its mean are those of the component of its first
    member. *)
Definition blob_ok (l k : nat) (b : Blob2.t) : Prop :=
  Blob2.label b = l ∧
  Forall (member_ok l k) (Blob2.indices b) ∧
  ∃ j0 rest cc m r,
    Blob2.indices b = Z.of_nat j0 :: rest ∧ dst !! j0 = Some cc ∧
    stats means rsizes cc = Some (m, r) ∧
    Blob2.mean b = centroid m r (Blob2.mean b).

Definition first_member (b : Blob2.t) : option Z := head (Blob2.indices b).

(** Row [l] holds one blob for each founder of label [l], in their order. *)
Definition rows_ok (k : nat) (bm : BlobMatrix) : Prop :=
  ∀ l row, bm !! l = Some row →
    Forall (blob_ok l k) row ∧
    first_member <$> row = (λ j, Some (Z.of_nat j)) <$> founders lmap dst passes l k.

(** [remap] holds, for a passing component already met, the position of its
    blob in the row of its founder, and [-1] for every other component. *)
Definition remap_ok (k : nat) (remap : list Z) : Prop :=
  ∀ c v, remap !! c = Some v →
    (passes (Z.of_nat c) = true → Z.of_nat c ∈ take k dst →
       ∃ l i j0, v = Z.of_nat i ∧ founders lmap dst passes l k !! i = Some j0 ∧
                 dst !! j0 = Some (Z.of_nat c)) ∧
    (¬ (passes (Z.of_nat c) = true ∧ Z.of_nat c ∈ take k dst) → v = (-1)%Z).

(** Every passing pixel is a member of the blob that stands, in the row of
    the pixel's own label, at the position [remap] gives for its component. *)
Definition placed (k : nat) (s : list Z * BlobMatrix) : Prop :=
  ∀ j l cc, j < k → lmap !! j = Some l → dst !! j = Some cc → passes cc = true →
    ∃ c i row b, subscript cc = Some c ∧ s.1 !! c = Some (Z.of_nat i) ∧
                 s.2 !! l = Some row ∧ row !! i = Some b ∧
                 Z.of_nat j ∈ Blob2.indices b.

(** With one label per component, the blob of a founder holds the pixels of
    its component. *)
Definition gathered (k : nat) (bm : BlobMatrix) : Prop :=
  ∀ l row i b j0 cc, bm !! l = Some row → row !! i = Some b →
    founders lmap dst passes l k !! i = Some j0 → dst !! j0 = Some cc →
    Blob2.indices b = members dst cc k.

(** The passing components carry one label each. *)
Definition one_label : Prop :=
  ∀ j j' cc l l', dst !! j = Some cc → dst !! j' = Some cc → passes cc = true →
    lmap !! j = Some l → lmap !! j' = Some l' → l = l'.

(** The second loop after [k] pixels, on any frame. *)
Definition materialized (size num_parts k : nat) (s : list Z * BlobMatrix) : Prop :=
  length s.1 = size ∧ length s.2 = num_parts ∧
  rows_ok k s.2 ∧ remap_ok k s.1 ∧
  total_members s.2 = length (alive_pixels dst passes k) ∧
  placed k s.

End SecondLoop.

(** ** The blobs of a frame *)

Section Outcome.

Variable lmap : list nat.
Variable dst : list Z.
Variable cloud : list PointXYZ.t.
Variables min_pts max_size : Z.

(** A member of a blob of row [l]: a pixel of label [l] whose component
    survives. *)
Definition member_of_frame (l : nat) (m : Z) : Prop :=
  ∃ j cc, m = Z.of_nat j ∧ lmap !! j = Some l ∧ dst !! j = Some cc ∧
          survives dst cloud min_pts max_size cc = true.

(** A blob of row [l]: labelled [l], made of such members, with the mean of
    the component of its first member in coefficients 0..2. *)
Definition blob_of_frame (l : nat) (b : Blob2.t) : Prop :=
  Blob2.label b = l ∧
  Forall (member_of_frame l) (Blob2.indices b) ∧
  ∃ j0 rest cc,
    Blob2.indices b = Z.of_nat j0 :: rest ∧ dst !! j0 = Some cc ∧
    Blob2.mean b = mean_of dst cloud cc (Blob2.mean b).

End Outcome.

(** ** The colour table of the constructor *)

(** [pcl::RGB]: four bytes. *)
Module RGB.
Record t := mk { r : Z; g : Z; b : Z; a : Z }.
End RGB.

(** Body of the loop of lines 76-83 on the vector [rgba]: entry [i] takes
    its channels from bytes [i*3 + 2], [i*3 + 1] and [i*3 + 0] of
    [LUT_COLOR_LABEL] and is made opaque. The table is declared outside this
    file and is an argument here; the subscripts are [int]. *)
Definition color_entry (LUT_COLOR_LABEL : list Z) (i : nat) (rgba : list RGB.t)
  : option (list RGB.t) :=
  _ ← rgba !! i;
  ir ← subscript (to_int (to_int (Z.of_nat i * 3) + 2));
  r ← LUT_COLOR_LABEL !! ir;
  ig ← subscript (to_int (to_int (Z.of_nat i * 3) + 1));
  g ← LUT_COLOR_LABEL !! ig;
  ib ← subscript (to_int (to_int (Z.of_nat i * 3) + 0));
  b ← LUT_COLOR_LABEL !! ib;
  Some (<[i := RGB.mk r g b 255]> rgba).

(** Lines 75-83: [rgba] starts as [LUT_COLOR_LABEL_LENGTH] value-initialised
    entries, [init] each. *)
Definition label_colors (LUT_COLOR_LABEL : list Z) (LUT_COLOR_LABEL_LENGTH : nat)
    (init : RGB.t) : option (list RGB.t) :=
  for_each (color_entry LUT_COLOR_LABEL) (seq 0 LUT_COLOR_LABEL_LENGTH)
           (replicate LUT_COLOR_LABEL_LENGTH init).

(** The bytes of a table entry in the order of [LUT_COLOR_LABEL]. *)
Definition bgr (c : RGB.t) : list Z := [RGB.b c; RGB.g c; RGB.r c].

(** ** More about the buffers and the blobs *)

(** The members of all blobs, row by row. *)
Definition all_members (bm : BlobMatrix) : list Z :=
  concat (Blob2.indices <$> concat bm).

(** The sum of the region sizes. *)
Definition sum_sizes (rsizes : list Z) : Z := foldr Z.add 0%Z rsizes.

(** Second loop: the members of every blob are in increasing order. *)
Definition ordered (bm : BlobMatrix) : Prop :=
  Forall (Forall (λ b, StronglySorted Z.lt (Blob2.indices b))) bm.

(** ** Inputs of the further examples *)

(** A loader that knows two tree files. *)
Definition loadTree_two (file : string) : option Z :=
  if decide (file = "tree_20.txt") then Some 20%Z
  else if decide (file = "tree_18.txt") then Some 18%Z
  else None.

(** A colour table of two labels, stored blue first. *)
Definition LUT_two : list Z := [50; 34; 22; 24; 247; 196]%Z.

(** * Properties *)

(** ** Integers and loops *)

Lemma to_int_small (v : Z) :
  (-2147483648 ≤ v ≤ INT_MAX)%Z → to_int v = v.
Proof.
  unfold to_int, INT_MAX. intros Hv.
  rewrite Z.mod_small by lia. lia.
Qed.

Lemma to_int_of_nat (k : nat) : (Z.of_nat k ≤ INT_MAX)%Z → to_int (Z.of_nat k) = Z.of_nat k.
Proof. intros Hk. apply to_int_small. unfold INT_MAX in *. lia. Qed.

Lemma checked_Some (v : Z) :
  (- INT_MAX - 1 ≤ v ≤ INT_MAX)%Z → checked v = Some v.
Proof. intros Hv. unfold checked. by rewrite decide_True. Qed.

Lemma checked_inv (v w : Z) :
  checked v = Some w → w = v ∧ (- INT_MAX - 1 ≤ v ≤ INT_MAX)%Z.
Proof. unfold checked. destruct (decide _); [|done]. by intros [= <-]. Qed.

Lemma subscript_of_nat (i : nat) : subscript (Z.of_nat i) = Some i.
Proof.
  unfold subscript. destruct (decide (0 ≤ Z.of_nat i)%Z) as [_|Hn]; [|lia].
  by rewrite Nat2Z.id.
Qed.

Lemma subscript_Some (v : Z) (i : nat) : subscript v = Some i → v = Z.of_nat i.
Proof.
  unfold subscript. destruct (decide (0 ≤ v)%Z); [|done].
  intros [= <-]. lia.
Qed.

Lemma shifted_Some (cc : Z) (i : nat) :
  shifted cc = Some i ↔ (cc = Z.of_nat i - 1)%Z.
Proof.
  unfold shifted. split.
  - intros H%subscript_Some. lia.
  - intros ->. replace (Z.of_nat i - 1 + 1)%Z with (Z.of_nat i) by lia.
    apply subscript_of_nat.
Qed.

Lemma for_each_snoc {S : Type} (body : nat → S → option S) ks k s :
  for_each body (ks ++ [k]) s = for_each body ks s ≫= body k.
Proof.
  revert s. induction ks as [|k' ks IH]; intros s; simpl.
  - by destruct (body k s).
  - destruct (body k' s) as [s'|]; simpl; [apply IH | done].
Qed.

Lemma for_each_seq_S {S : Type} (body : nat → S → option S) n s :
  for_each body (seq 0 (Datatypes.S n)) s = for_each body (seq 0 n) s ≫= body n.
Proof. by rewrite seq_S, for_each_snoc. Qed.

Lemma insert_snoc {A : Type} (l : list A) (a b : A) :
  <[length l := b]> (l ++ [a]) = l ++ [b].
Proof. induction l as [|a' l IH]; simpl; [done|]. by f_equal. Qed.

Lemma sum_list_with_insert {A : Type} (f : A → nat) (l : list A) i a b :
  l !! i = Some a →
  sum_list_with f (<[i := b]> l) + f a = sum_list_with f l + f b.
Proof.
  revert i. induction l as [|a' l IH]; intros [|i] Hi; simplify_eq/=; [lia|].
  specialize (IH i Hi). lia.
Qed.

Lemma total_members_insert (bm : BlobMatrix) l row row' :
  bm !! l = Some row →
  total_members (<[l := row']> bm) + sum_list_with (λ b, length (Blob2.indices b)) row =
  total_members bm + sum_list_with (λ b, length (Blob2.indices b)) row'.
Proof.
  unfold total_members.
  revert l. induction bm as [|r bm IH]; intros [|l] Hl; simplify_eq/=.
  - rewrite !sum_list_with_app. lia.
  - specialize (IH l Hl). rewrite !sum_list_with_app. lia.
Qed.

(** A loop over [0 .. n-1] that ends establishes an invariant that its body
    keeps. *)
Lemma for_each_invariant {S : Type} (I : nat → S → Prop)
    (body : nat → S → option S) n s0 s :
  I 0 s0 →
  (∀ k a b, k < n → I k a → body k a = Some b → I (Datatypes.S k) b) →
  for_each body (seq 0 n) s0 = Some s → I n s.
Proof.
  intros H0 Hstep. revert s.
  assert (∀ m, m ≤ n → ∀ s, for_each body (seq 0 m) s0 = Some s → I m s) as H.
  { induction m as [|m IH]; intros Hm s.
    - by intros [= <-].
    - rewrite for_each_seq_S.
      destruct (for_each body (seq 0 m) s0) as [a|] eqn:Ha; [|done].
      simpl. intros Hb. apply (Hstep m a s); [lia| |done]. apply IH; [lia|done]. }
  by apply H.
Qed.

(** A loop whose body succeeds wherever the invariant holds runs to its
    end. *)
Lemma for_each_total {S : Type} (I : nat → S → Prop)
    (body : nat → S → option S) n s0 :
  I 0 s0 →
  (∀ k a, k < n → I k a → ∃ b, body k a = Some b ∧ I (Datatypes.S k) b) →
  ∃ s, for_each body (seq 0 n) s0 = Some s ∧ I n s.
Proof.
  intros H0 Hstep.
  assert (∀ m, m ≤ n → ∃ s, for_each body (seq 0 m) s0 = Some s ∧ I m s) as H.
  { induction m as [|m IH]; intros Hm.
    - by exists s0.
    - destruct IH as (a & Ha & HI); [lia|].
      destruct (Hstep m a) as (b & Hb & HIb); [lia|done|].
      exists b. by rewrite for_each_seq_S, Ha. }
  by apply H.
Qed.

(** ** The quantities of a frame, pixel by pixel *)

Section FrameFacts.

Variable lmap : list nat.
Variable dst : list Z.
Variable cloud : list PointXYZ.t.

Lemma pixels_of_S cc k :
  pixels_of dst cc (S k) =
  pixels_of dst cc k ++ (if decide (dst !! k = Some cc) then [k] else []).
Proof. unfold pixels_of. by rewrite seq_S, filter_app. Qed.

Lemma pixels_of_hit cc k :
  dst !! k = Some cc → pixels_of dst cc (S k) = pixels_of dst cc k ++ [k].
Proof. intros H. rewrite pixels_of_S. by rewrite decide_True. Qed.

Lemma pixels_of_miss cc c k :
  dst !! k = Some c → c ≠ cc → pixels_of dst cc (S k) = pixels_of dst cc k.
Proof.
  intros H Hne. rewrite pixels_of_S, decide_False, app_nil_r; [done|].
  rewrite H. by intros [= ?].
Qed.

Lemma elem_of_pixels_of cc k j :
  j ∈ pixels_of dst cc k ↔ j < k ∧ dst !! j = Some cc.
Proof.
  unfold pixels_of. rewrite list_elem_of_filter, elem_of_seq. intuition lia.
Qed.

Lemma pixels_of_unseen cc k : cc ∉ take k dst → pixels_of dst cc k = [].
Proof.
  intros Hcc. destruct (pixels_of dst cc k) as [|j js] eqn:E; [done|].
  assert (j ∈ pixels_of dst cc k) as [Hj Hd]%elem_of_pixels_of
    by (rewrite E; apply list_elem_of_here).
  exfalso. apply Hcc, elem_of_take. eauto.
Qed.

Lemma length_pixels_of cc k : length (pixels_of dst cc k) ≤ k.
Proof.
  unfold pixels_of. etrans; [apply length_filter|]. by rewrite length_seq.
Qed.

Lemma count_of_hit cc k :
  dst !! k = Some cc → count_of dst cc (S k) = (count_of dst cc k + 1)%Z.
Proof.
  intros H. unfold count_of. rewrite (pixels_of_hit _ _ H), length_app. simpl. lia.
Qed.

Lemma count_of_bounds cc k : (0 ≤ count_of dst cc k ≤ Z.of_nat k)%Z.
Proof. unfold count_of. pose proof (length_pixels_of cc k). lia. Qed.

Lemma sum_of_hit cc k p :
  dst !! k = Some cc → cloud !! k = Some p →
  sum_of dst cloud cc (S k) = add_point (sum_of dst cloud cc k) p.
Proof.
  intros H Hp. unfold sum_of. rewrite (pixels_of_hit _ _ H), foldl_snoc.
  unfold point_at. by rewrite Hp.
Qed.

Lemma sum_of_miss cc c k :
  dst !! k = Some c → c ≠ cc → sum_of dst cloud cc (S k) = sum_of dst cloud cc k.
Proof. intros H Hne. unfold sum_of. by rewrite (pixels_of_miss _ _ _ H Hne). Qed.

Lemma count_of_miss cc c k :
  dst !! k = Some c → c ≠ cc → count_of dst cc (S k) = count_of dst cc k.
Proof. intros H Hne. unfold count_of. by rewrite (pixels_of_miss _ _ _ H Hne). Qed.

Lemma members_hit cc k :
  dst !! k = Some cc → members dst cc (S k) = members dst cc k ++ [Z.of_nat k].
Proof. intros H. unfold members. by rewrite (pixels_of_hit _ _ H), fmap_app. Qed.

Lemma members_miss cc c k :
  dst !! k = Some c → c ≠ cc → members dst cc (S k) = members dst cc k.
Proof. intros H Hne. unfold members. by rewrite (pixels_of_miss _ _ _ H Hne). Qed.

(** ** The first loop *)

Lemma accumulated_start size :
  accumulated dst cloud size 0 (replicate size float3.zero, replicate size 0%Z).
Proof.
  split_and!; simpl; [apply length_replicate..| |].
  - intros i Hi. by rewrite !lookup_replicate_2.
  - intros j cc Hj. lia.
Qed.

Lemma accumulate_keeps size k s s' :
  (Z.of_nat k < INT_MAX)%Z →
  accumulated dst cloud size k s →
  accumulate cloud dst k s = Some s' →
  accumulated dst cloud size (S k) s'.
Proof.
  intros Hk (Hl1 & Hl2 & Hs & Hslots) Hstep. destruct s as [means rsizes].
  unfold accumulate in Hstep. simpl in *.
  destruct (cloud !! k) as [p|] eqn:Hp; [|done].
  destruct (dst !! k) as [cc|] eqn:Hcc; [|done]. simpl in Hstep.
  destruct (shifted cc) as [i|] eqn:Hi; [|done]. simpl in Hstep.
  destruct (means !! i) as [m|] eqn:Hm; [|done].
  destruct (rsizes !! i) as [r|] eqn:Hr; [|done].
  simpl in Hstep. injection Hstep as <-.
  apply shifted_Some in Hi.
  assert (i < size) as Hlt by (apply lookup_lt_Some in Hm; lia).
  split_and!; simpl; [by rewrite length_insert..| |].
  2:{ intros j cc' Hj Hj'. destruct (decide (j = k)) as [->|Hne].
      - rewrite Hcc in Hj'. injection Hj' as <-. lia.
      - apply (Hslots j); [lia|done]. }
  intros i' Hi'. destruct (decide (i' = i)) as [->|Hne].
  - rewrite !list_lookup_insert_eq by lia.
    destruct (Hs i Hlt) as [Hm' Hr']. rewrite Hm in Hm'. rewrite Hr in Hr'.
    injection Hm' as ->. injection Hr' as ->. rewrite <- Hi.
    rewrite (sum_of_hit _ _ _ Hcc Hp), (count_of_hit _ _ Hcc).
    split; [done|]. f_equal. apply to_int_small.
    pose proof (count_of_bounds cc k). unfold INT_MAX in *. lia.
  - rewrite !list_lookup_insert_ne by done.
    destruct (Hs i' Hi') as [Hm' Hr']. rewrite Hm', Hr'.
    assert (cc ≠ Z.of_nat i' - 1)%Z by lia.
    by rewrite (sum_of_miss _ _ _ Hcc), (count_of_miss _ _ _ Hcc).
Qed.

Lemma accumulate_runs size k s cc :
  accumulated dst cloud size k s →
  is_Some (cloud !! k) → dst !! k = Some cc → (-1 ≤ cc)%Z → (cc + 1 < Z.of_nat size)%Z →
  is_Some (accumulate cloud dst k s).
Proof.
  intros (Hl1 & Hl2 & Hs & _) [p Hp] Hcc Hlo Hhi. destruct s as [means rsizes].
  unfold accumulate. rewrite Hp, Hcc. simpl.
  assert (shifted cc = Some (Z.to_nat (cc + 1))) as ->
    by (apply shifted_Some; lia).
  simpl in *. destruct (Hs (Z.to_nat (cc + 1))) as [-> ->]; [lia|]. by simpl.
Qed.

Lemma first_loop_invariant size s :
  (Z.of_nat (length dst) ≤ INT_MAX)%Z →
  for_each (accumulate cloud dst) (seq 0 (length dst))
           (replicate size float3.zero, replicate size 0%Z) = Some s →
  accumulated dst cloud size (length dst) s.
Proof.
  intros Hn. apply for_each_invariant.
  - apply accumulated_start.
  - intros k a b Hk Ha Hb. eapply accumulate_keeps; [lia|done..].
Qed.

Lemma first_loop_total size :
  (Z.of_nat (length dst) ≤ INT_MAX)%Z →
  length dst ≤ length cloud →
  Forall (λ cc, -1 ≤ cc ∧ cc + 1 < Z.of_nat size)%Z dst →
  ∃ s, for_each (accumulate cloud dst) (seq 0 (length dst))
                (replicate size float3.zero, replicate size 0%Z) = Some s ∧
       accumulated dst cloud size (length dst) s.
Proof.
  intros Hn Hcloud Hrange. apply for_each_total.
  - apply accumulated_start.
  - intros k a Hk Ha.
    destruct (lookup_lt_is_Some_2 dst k Hk) as [cc Hcc].
    destruct (Forall_lookup_1 _ _ _ _ Hrange Hcc) as [Hlo Hhi].
    destruct (accumulate_runs size k a cc) as [b Hb];
      [done|apply lookup_lt_is_Some_2; lia|done..|].
    exists b. split; [done|]. eapply accumulate_keeps; [lia|done..].
Qed.

(** *** What the second loop reads *)

Lemma invalidate_Some means0 means :
  invalidate means0 = Some means →
  ∃ m, means0 !! 0 = Some m ∧
       means = <[0 := float3.mk (float3.x m) (float3.y m) F32.zero]> means0.
Proof.
  unfold invalidate. change (shifted (-1)) with (Some 0). simpl.
  destruct (means0 !! 0) as [m|]; [|done].
  intros [= <-]. eauto.
Qed.

Lemma stats_after size means0 rsizes means cc m r :
  accumulated dst cloud size (length dst) (means0, rsizes) →
  invalidate means0 = Some means →
  stats means rsizes cc = Some (m, r) →
  r = count_of dst cc (length dst) ∧
  (cc ≠ (-1)%Z → m = sum_of dst cloud cc (length dst)) ∧
  (cc = (-1)%Z → F32.neq0 (float3.z m) = false).
Proof.
  intros (Hl1 & Hl2 & Hs & _) (m0 & Hm0 & ->)%invalidate_Some. simpl in *.
  unfold stats. destruct (shifted cc) as [i|] eqn:Hi; [|done]. simpl.
  apply shifted_Some in Hi.
  destruct (<[0:=_]> means0 !! i) as [m'|] eqn:Hm'; [|done]. simpl.
  destruct (rsizes !! i) as [r'|] eqn:Hr'; [|done]. simpl. intros [= -> ->].
  assert (i < size) as Hlt by (apply lookup_lt_Some in Hr'; lia).
  destruct (Hs i Hlt) as [Hsum Hcount]. rewrite Hr' in Hcount. injection Hcount as ->.
  rewrite <- Hi. split_and!; [done| |].
  - intros Hne. rewrite list_lookup_insert_ne in Hm' by lia. congruence.
  - intros ->. assert (i = 0) as -> by lia.
    rewrite list_lookup_insert_eq in Hm' by lia. by injection Hm' as <-.
Qed.

Lemma stats_defined size means0 rsizes means cc :
  accumulated dst cloud size (length dst) (means0, rsizes) →
  invalidate means0 = Some means →
  (-1 ≤ cc)%Z → (cc + 1 < Z.of_nat size)%Z →
  is_Some (stats means rsizes cc).
Proof.
  intros (Hl1 & Hl2 & Hs & _) (m0 & Hm0 & ->)%invalidate_Some Hlo Hhi. simpl in *.
  unfold stats.
  assert (shifted cc = Some (Z.to_nat (cc + 1))) as -> by (apply shifted_Some; lia).
  simpl.
  destruct (lookup_lt_is_Some_2 (<[0:=float3.mk (float3.x m0) (float3.y m0) F32.zero]> means0)
              (Z.to_nat (cc + 1))) as [m ->]; [rewrite length_insert; lia|].
  destruct (lookup_lt_is_Some_2 rsizes (Z.to_nat (cc + 1))) as [r ->]; [lia|].
  by simpl.
Qed.

Lemma invalidate_runs size means0 rsizes :
  accumulated dst cloud size (length dst) (means0, rsizes) → 0 < size →
  is_Some (invalidate means0).
Proof.
  intros (Hl1 & _) Hsize. simpl in *. unfold invalidate.
  change (shifted (-1)) with (Some 0). simpl.
  destruct (lookup_lt_is_Some_2 means0 0) as [m ->]; [lia|]. by simpl.
Qed.

(** The test of the second loop decides survival. *)
Lemma passes_survives size means0 rsizes means min_pts max_size cc :
  accumulated dst cloud size (length dst) (means0, rsizes) →
  invalidate means0 = Some means →
  passes means rsizes min_pts max_size cc = survives dst cloud min_pts max_size cc.
Proof.
  intros Hacc Hinv. unfold passes, survives.
  destruct (stats means rsizes cc) as [[m r]|] eqn:Hst.
  - destruct (stats_after _ _ _ _ _ _ _ Hacc Hinv Hst) as (-> & Hm & Hz).
    destruct (decide (cc = -1)%Z) as [->|Hne].
    + rewrite bool_decide_eq_false_2 by (intros ?; done).
      unfold is_valid. by rewrite Hz.
    + rewrite bool_decide_eq_true_2 by done. by rewrite Hm.
  - assert (pixels_of dst cc (length dst) = []) as Hnone.
    { destruct (pixels_of dst cc (length dst)) as [|j js] eqn:E; [done|].
      assert (j ∈ pixels_of dst cc (length dst)) as [Hj Hd]%elem_of_pixels_of
        by (rewrite E; apply list_elem_of_here).
      pose proof Hacc as (_ & _ & _ & Hslots). destruct (Hslots j cc Hj Hd) as [Hlo Hhi].
      destruct (stats_defined size means0 rsizes means cc) as [? Hsome];
        [done..|congruence]. }
    unfold is_valid, sum_of. rewrite Hnone. simpl. by rewrite andb_false_r.
Qed.

End FrameFacts.

(** ** Founders and passing pixels *)

(** A component has one first pixel. *)
Lemma first_pixel_unique (dst : list Z) j j' cc :
  dst !! j = Some cc → cc ∉ take j dst →
  dst !! j' = Some cc → cc ∉ take j' dst → j = j'.
Proof.
  intros Hj Hn Hj' Hn'.
  destruct (decide (j < j')) as [Hlt|Hge].
  { exfalso. apply Hn', elem_of_take. eauto. }
  destruct (decide (j' < j)) as [Hlt|Hge'].
  { exfalso. apply Hn, elem_of_take. eauto. }
  lia.
Qed.

Lemma seen_S (dst : list Z) k cc c :
  dst !! k = Some cc → (c ∈ take (S k) dst) ↔ (c ∈ take k dst) ∨ c = cc.
Proof.
  intros Hcc. rewrite (take_S_r _ _ _ Hcc), elem_of_app, list_elem_of_singleton. tauto.
Qed.

Section FounderFacts.

Variable lmap : list nat.
Variable dst : list Z.
Variable alive : Z → bool.

Lemma is_founder_spec l j :
  is_founder lmap dst alive l j = true ↔
  lmap !! j = Some l ∧ ∃ cc, dst !! j = Some cc ∧ (cc ∉ take j dst) ∧ alive cc = true.
Proof.
  unfold is_founder. destruct (lmap !! j) as [l'|], (dst !! j) as [cc|];
    [|split; [done|naive_solver]..].
  rewrite !andb_true_iff, !bool_decide_eq_true. naive_solver.
Qed.

Lemma founders_S l k :
  founders lmap dst alive l (S k) =
  founders lmap dst alive l k ++ (if is_founder lmap dst alive l k then [k] else []).
Proof.
  unfold founders. rewrite seq_S, filter_app. f_equal. simpl.
  unfold filter, list_filter. by destruct (is_founder lmap dst alive l k).
Qed.

Lemma founders_new l k cc :
  lmap !! k = Some l → dst !! k = Some cc → cc ∉ take k dst → alive cc = true →
  founders lmap dst alive l (S k) = founders lmap dst alive l k ++ [k].
Proof.
  intros Hl Hcc Hnew Ha. rewrite founders_S.
  assert (is_founder lmap dst alive l k = true) as -> by (apply is_founder_spec; eauto).
  done.
Qed.

Lemma founders_same l k :
  is_founder lmap dst alive l k = false →
  founders lmap dst alive l (S k) = founders lmap dst alive l k.
Proof. intros H. by rewrite founders_S, H, app_nil_r. Qed.

Lemma founders_old l k cc :
  dst !! k = Some cc → cc ∈ take k dst ∨ alive cc = false →
  founders lmap dst alive l (S k) = founders lmap dst alive l k.
Proof.
  intros Hcc Hold. apply founders_same, not_true_is_false.
  intros (_ & cc' & Hcc' & Hnew & Ha)%is_founder_spec.
  rewrite Hcc in Hcc'. injection Hcc' as <-. destruct Hold; congruence.
Qed.

Lemma founders_other l k l' :
  lmap !! k = Some l' → l ≠ l' →
  founders lmap dst alive l (S k) = founders lmap dst alive l k.
Proof.
  intros Hl Hne. apply founders_same, not_true_is_false.
  intros (Hl' & _)%is_founder_spec. congruence.
Qed.

Lemma elem_of_founders l k j :
  j ∈ founders lmap dst alive l k ↔ j < k ∧ is_founder lmap dst alive l j = true.
Proof.
  unfold founders. rewrite list_elem_of_filter, elem_of_seq.
  rewrite Is_true_true. intuition lia.
Qed.

Lemma founders_lookup l k i j :
  founders lmap dst alive l k !! i = Some j →
  j < k ∧ lmap !! j = Some l ∧
  ∃ cc, dst !! j = Some cc ∧ (cc ∉ take j dst) ∧ alive cc = true.
Proof.
  intros [Hj Hf%is_founder_spec]%list_elem_of_lookup_2%elem_of_founders. tauto.
Qed.

Lemma length_founders l k : length (founders lmap dst alive l k) ≤ k.
Proof. unfold founders. etrans; [apply length_filter|]. by rewrite length_seq. Qed.

Lemma NoDup_founders l k : NoDup (founders lmap dst alive l k).
Proof. apply NoDup_filter, NoDup_seq. Qed.

Lemma founders_prefix l k i j :
  founders lmap dst alive l k !! i = Some j →
  founders lmap dst alive l (S k) !! i = Some j.
Proof. intros H. rewrite founders_S. by apply lookup_app_l_Some. Qed.

Lemma alive_pixels_S k :
  alive_pixels dst alive (S k) =
  alive_pixels dst alive k ++ (if pixel_alive dst alive k then [k] else []).
Proof.
  unfold alive_pixels. rewrite seq_S, filter_app. f_equal. simpl.
  unfold filter, list_filter. by destruct (pixel_alive dst alive k).
Qed.

End FounderFacts.

Lemma founders_ext lmap dst (alive alive' : Z → bool) l k :
  (∀ cc, alive cc = alive' cc) →
  founders lmap dst alive l k = founders lmap dst alive' l k.
Proof.
  intros Hext. unfold founders. apply list_filter_iff. intros j.
  unfold is_founder. destruct (lmap !! j), (dst !! j); try done. by rewrite Hext.
Qed.

Lemma alive_pixels_ext dst (alive alive' : Z → bool) k :
  (∀ cc, alive cc = alive' cc) →
  alive_pixels dst alive k = alive_pixels dst alive' k.
Proof.
  intros Hext. unfold alive_pixels. apply list_filter_iff. intros j.
  unfold pixel_alive. destruct (dst !! j); try done. by rewrite Hext.
Qed.

(** ** The second loop, one pixel at a time *)

Section SecondLoopFacts.

Variable remains : nat → nat → float.
Variable lmap : list nat.
Variable dst : list Z.
Variable means : list float3.t.
Variable rsizes : list Z.
Variables min_pts max_size : Z.

Local Abbreviation pass := (passes means rsizes min_pts max_size).
Local Abbreviation body := (materialize remains lmap dst means rsizes min_pts max_size).
Local Abbreviation body_case :=
  (materialize_case remains lmap dst means rsizes min_pts max_size).
Local Abbreviation founded := (founders lmap dst pass).

Lemma test_stats cc m r :
  stats means rsizes cc = Some (m, r) →
  test means rsizes min_pts max_size cc = Some (is_valid min_pts max_size m r).
Proof.
  unfold stats, test, is_valid. destruct (shifted cc) as [i|]; [|done]. simpl.
  destruct (means !! i) as [m'|]; [|done]. simpl.
  destruct (rsizes !! i) as [r'|]; [|done]. simpl. intros [= -> ->].
  by destruct (F32.neq0 (float3.z m)).
Qed.

Lemma test_true cc :
  test means rsizes min_pts max_size cc = Some true →
  ∃ m r, stats means rsizes cc = Some (m, r) ∧ is_valid min_pts max_size m r = true.
Proof.
  unfold stats, test, is_valid. destruct (shifted cc) as [i|]; [|done]. simpl.
  destruct (means !! i) as [m|]; [|done]. simpl.
  destruct (F32.neq0 (float3.z m)) eqn:Hz; [|done].
  destruct (rsizes !! i) as [r|]; [|done]. simpl. intros [= Hb].
  exists m, r. split; [done|]. rewrite Hz. exact Hb.
Qed.

Lemma test_false cc :
  test means rsizes min_pts max_size cc = Some false → pass cc = false.
Proof.
  unfold passes. intros Ht. destruct (stats means rsizes cc) as [[m r]|] eqn:Hs; [|done].
  rewrite (test_stats _ _ _ Hs) in Ht. by injection Ht.
Qed.

Lemma create_spec label cc m r c (remap : list Z) (row : list Blob2.t) :
  (Z.of_nat (length row) < INT_MAX)%Z →
  stats means rsizes cc = Some (m, r) →
  create remains means rsizes label cc c remap row =
  Some (Z.of_nat (length row), <[c := Z.of_nat (length row)]> remap,
        row ++ [Blob2.mk label
                  (centroid m r (Blob2.mean (Blob2.constructed
                                               (remains label (length row)))))
                  [] 0 0]).
Proof.
  intros Hlen Hs. unfold create.
  rewrite to_int_of_nat by lia.
  rewrite to_int_small by (unfold INT_MAX in *; lia).
  replace (Z.of_nat (length row) + 1)%Z with (Z.of_nat (S (length row))) by lia.
  rewrite !subscript_of_nat. simpl.
  rewrite resize_ge by lia.
  replace (S (length row) - length row) with 1 by lia. simpl.
  rewrite lookup_app_r, Nat.sub_diag by lia. simpl. rewrite Hs. simpl.
  do 2 f_equal. apply insert_snoc.
Qed.

Lemma materialize_cases k remap bm s' :
  (Z.of_nat k < INT_MAX)%Z →
  (∀ l row, bm !! l = Some row → length row ≤ k) →
  body k (remap, bm) = Some s' →
  body_case k remap bm s'.
Proof.
  intros Hk Hrows. unfold materialize.
  destruct (lmap !! k) as [label|] eqn:Hl; [|done].
  destruct (dst !! k) as [cc|] eqn:Hcc; [|done]. simpl.
  destruct (test means rsizes min_pts max_size cc) as [[]|] eqn:Ht; [| |done]; simpl.
  2:{ intros [= <-]. eapply case_skip; [done..|]. by apply test_false. }
  destruct (test_true _ Ht) as (m & r & Hst & Hv).
  destruct (subscript cc) as [c|] eqn:Hc; [|done]. simpl.
  destruct (remap !! c) as [ccindex|] eqn:Hr; [|done]. simpl.
  destruct (bm !! label) as [row|] eqn:Hrow; [|done]. simpl.
  rewrite to_int_of_nat by lia.
  destruct (decide (ccindex = -1)%Z) as [->|Hne].
  - rewrite (create_spec _ _ m r) by (apply Hrows in Hrow; lia || done). simpl.
    rewrite subscript_of_nat. simpl.
    rewrite lookup_app_r, Nat.sub_diag by lia. simpl.
    intros [= <-].
    rewrite insert_snoc.
    by eapply case_create.
  - simpl. destruct (subscript ccindex) as [i|] eqn:Hi; [|done]. simpl.
    destruct (row !! i) as [b|] eqn:Hb; [|done]. simpl.
    intros [= <-]. apply subscript_Some in Hi as ->.
    eapply case_append; [done..| |done|done|done|done].
    unfold passes. by rewrite Hst.
Qed.

(** Conversely, each case is a run of the body. *)
Lemma materialize_case_runs k remap bm s' :
  (Z.of_nat k < INT_MAX)%Z →
  (∀ l row, bm !! l = Some row → length row ≤ k) →
  is_Some (dst !! k ≫= stats means rsizes) →
  body_case k remap bm s' →
  body k (remap, bm) = Some s'.
Proof.
  intros Hk Hrows Hst Hcase. unfold materialize.
  destruct Hcase as [label cc Hl Hcc Hp|label cc m r c row Hl Hcc Hs Hv Hc Hr Hrow
                    |label cc c i row b Hl Hcc Hp Hc Hr Hrow Hb];
    rewrite Hl, Hcc; simpl; rewrite Hcc in Hst; simpl in Hst.
  - destruct Hst as [[m r] Hs]. rewrite (test_stats _ _ _ Hs). simpl.
    unfold passes in Hp. rewrite Hs in Hp. by rewrite Hp.
  - rewrite (test_stats _ _ _ Hs). simpl. rewrite Hv, Hc. simpl. rewrite Hr. simpl.
    rewrite Hrow. simpl.
    rewrite to_int_of_nat by lia.
    rewrite (create_spec _ _ m r) by (apply Hrows in Hrow; lia || done). simpl.
    rewrite subscript_of_nat. simpl.
    rewrite lookup_app_r, Nat.sub_diag by lia. simpl.
    by rewrite insert_snoc.
  - destruct Hst as [[m r] Hs]. rewrite (test_stats _ _ _ Hs). simpl.
    unfold passes in Hp. rewrite Hs in Hp. rewrite Hp, Hc. simpl.
    rewrite Hr. simpl. rewrite Hrow. simpl.
    rewrite to_int_of_nat by lia. rewrite decide_False by lia. simpl.
    rewrite subscript_of_nat. simpl. by rewrite Hb.
Qed.

(** *** Rows and remap table *)

Lemma member_ok_mono l k m :
  member_ok lmap dst means rsizes min_pts max_size l k m →
  member_ok lmap dst means rsizes min_pts max_size l (S k) m.
Proof. intros (j & ? & ? & ?). exists j. split_and!; [done|lia|tauto..]. Qed.

Lemma blob_ok_mono l k b :
  blob_ok lmap dst means rsizes min_pts max_size l k b →
  blob_ok lmap dst means rsizes min_pts max_size l (S k) b.
Proof.
  intros (Hl & Hm & Hc). split_and!; [done| |done].
  eapply Forall_impl; [done|]. apply member_ok_mono.
Qed.

Lemma blob_ok_push l k b :
  lmap !! k = Some l → pixel_alive dst pass k = true →
  blob_ok lmap dst means rsizes min_pts max_size l k b →
  blob_ok lmap dst means rsizes min_pts max_size l (S k)
          (Blob2.push_back b (Z.of_nat k)).
Proof.
  intros Hl Ha (Hlb & Hm & j0 & rest & cc & m & r & Hi & Hc & Hs & Hmean).
  split_and!; simpl; [done| |].
  - apply Forall_app. split.
    + eapply Forall_impl; [done|]. apply member_ok_mono.
    + apply Forall_singleton. exists k. split_and!; [done|lia|done..].
  - exists j0, (rest ++ [Z.of_nat k]), cc, m, r. by rewrite Hi.
Qed.

Lemma blob_ok_new l k cc m r c3 :
  lmap !! k = Some l → dst !! k = Some cc →
  stats means rsizes cc = Some (m, r) → is_valid min_pts max_size m r = true →
  blob_ok lmap dst means rsizes min_pts max_size l (S k) (new_blob l m r c3 k).
Proof.
  intros Hl Hcc Hs Hv. split_and!; simpl; [done| |].
  - apply Forall_singleton. exists k. split_and!; [done|lia|done|].
    unfold pixel_alive, passes. by rewrite Hcc, Hs.
  - by exists k, [], cc, m, r.
Qed.

Lemma first_member_push l k b m :
  blob_ok lmap dst means rsizes min_pts max_size l k b →
  first_member (Blob2.push_back b m) = first_member b.
Proof.
  intros (_ & _ & j0 & rest & ? & ? & ? & Hi & _).
  unfold first_member. simpl. by rewrite Hi.
Qed.

Lemma rows_ok_length k bm l row :
  rows_ok lmap dst means rsizes min_pts max_size k bm → bm !! l = Some row →
  length row = length (founded l k).
Proof.
  intros Hrows Hrow. destruct (Hrows l row Hrow) as [_ He].
  apply (f_equal length) in He. by rewrite !length_fmap in He.
Qed.

Lemma rows_ok_short k bm :
  rows_ok lmap dst means rsizes min_pts max_size k bm →
  ∀ l row, bm !! l = Some row → length row ≤ k.
Proof.
  intros Hrows l row Hrow. rewrite (rows_ok_length _ _ _ _ Hrows Hrow).
  apply length_founders.
Qed.

Lemma shape_step k remap bm s' :
  rows_ok lmap dst means rsizes min_pts max_size k bm →
  remap_ok lmap dst means rsizes min_pts max_size k remap →
  body_case k remap bm s' →
  rows_ok lmap dst means rsizes min_pts max_size (S k) s'.2 ∧
  remap_ok lmap dst means rsizes min_pts max_size (S k) s'.1.
Proof.
  intros Hrows Hremap Hcase.
  destruct Hcase as [label cc Hl Hcc Hp|label cc m r c row Hl Hcc Hs Hv Hc Hr Hrow
                    |label cc c i row b Hl Hcc Hp Hc Hr Hrow Hb]; simpl.
  - (* the component does not pass *)
    split.
    + intros l row Hrow. destruct (Hrows l row Hrow) as [Hf He]. split.
      * eapply Forall_impl; [done|]. apply blob_ok_mono.
      * rewrite (founders_old _ _ _ _ _ cc) by auto. done.
    + intros c v Hv. destruct (Hremap c v Hv) as [H1 H2]. split.
      * intros Hpc [Hseen| <-]%(seen_S _ _ _ _ Hcc); [|congruence].
        destruct (H1 Hpc Hseen) as (l & i & j0 & -> & Hf & Hd).
        exists l, i, j0. split_and!; [done| |done]. by apply founders_prefix.
      * intros Hn. apply H2. intros [Hpc Hseen]. apply Hn. split; [done|].
        apply (seen_S _ _ _ _ Hcc). auto.
  - (* first pixel of a passing component *)
    assert (pass cc = true) as Hp by (unfold passes; by rewrite Hs).
    apply subscript_Some in Hc as Hcc'. subst cc.
    assert (Z.of_nat c ∉ take k dst) as Hnew.
    { intros Hseen. destruct (Hremap c _ Hr) as [H1 _].
      destruct (H1 Hp Hseen) as (? & ? & ? & ? & _). lia. }
    pose proof (lookup_lt_Some _ _ _ Hrow) as Hlt.
    split.
    + intros l row' Hrow'. destruct (decide (l = label)) as [->|Hne].
      * rewrite list_lookup_insert_eq in Hrow' by done. injection Hrow' as <-.
        destruct (Hrows label row Hrow) as [Hf He]. split.
        -- apply Forall_app. split.
           ++ eapply Forall_impl; [done|]. apply blob_ok_mono.
           ++ apply Forall_singleton. by eapply blob_ok_new.
        -- rewrite (founders_new _ _ _ _ _ _ Hl Hcc Hnew Hp), !fmap_app, He. done.
      * rewrite list_lookup_insert_ne in Hrow' by done.
        destruct (Hrows l row' Hrow') as [Hf He]. split.
        -- eapply Forall_impl; [done|]. apply blob_ok_mono.
        -- by rewrite (founders_other _ _ _ _ _ _ Hl Hne).
    + intros c' v Hv'. destruct (decide (c' = c)) as [->|Hne].
      * rewrite list_lookup_insert_eq in Hv' by (by eapply lookup_lt_Some).
        injection Hv' as <-. split.
        -- intros _ _. exists label, (length row), k. split_and!; [done| |done].
           rewrite (founders_new _ _ _ _ _ _ Hl Hcc Hnew Hp).
           rewrite (rows_ok_length _ _ _ _ Hrows Hrow).
           by rewrite lookup_app_r, Nat.sub_diag by lia.
        -- intros Hn. exfalso. apply Hn. split; [done|].
           apply (seen_S _ _ _ _ Hcc). auto.
      * rewrite list_lookup_insert_ne in Hv' by done.
        destruct (Hremap c' v Hv') as [H1 H2]. split.
        -- intros Hpc [Hseen|Heq]%(seen_S _ _ _ _ Hcc); [|lia].
           destruct (H1 Hpc Hseen) as (l & i & j0 & -> & Hf & Hd).
           exists l, i, j0. split_and!; [done| |done]. by apply founders_prefix.
        -- intros Hn. apply H2. intros [Hpc Hseen]. apply Hn. split; [done|].
           apply (seen_S _ _ _ _ Hcc). auto.
  - (* a later pixel of a passing component *)
    apply subscript_Some in Hc as Hcc'. subst cc.
    assert (Z.of_nat c ∈ take k dst) as Hseen.
    { destruct (Hremap c _ Hr) as [_ H2].
      destruct (decide (Z.of_nat c ∈ take k dst)) as [|Hn]; [done|].
      assert (Z.of_nat i = -1)%Z by (apply H2; tauto). lia. }
    pose proof (lookup_lt_Some _ _ _ Hrow) as Hlt.
    assert (pixel_alive dst pass k = true) as Ha by (unfold pixel_alive; by rewrite Hcc).
    split.
    + intros l row' Hrow'. destruct (decide (l = label)) as [->|Hne].
      * rewrite list_lookup_insert_eq in Hrow' by done. injection Hrow' as <-.
        destruct (Hrows label row Hrow) as [Hf He].
        pose proof (Forall_lookup_1 _ _ _ _ Hf Hb) as Hbok. split.
        -- apply Forall_insert.
           ++ eapply Forall_impl; [done|]. apply blob_ok_mono.
           ++ by apply blob_ok_push.
        -- rewrite (founders_old _ _ _ _ _ _ Hcc) by auto.
           rewrite list_fmap_insert, (first_member_push _ _ _ _ Hbok).
           rewrite list_insert_id; [done|]. by rewrite list_lookup_fmap, Hb.
      * rewrite list_lookup_insert_ne in Hrow' by done.
        destruct (Hrows l row' Hrow') as [Hf He]. split.
        -- eapply Forall_impl; [done|]. apply blob_ok_mono.
        -- by rewrite (founders_other _ _ _ _ _ _ Hl Hne).
    + intros c' v Hv. destruct (Hremap c' v Hv) as [H1 H2]. split.
      * intros Hpc Hs'.
        assert (Z.of_nat c' ∈ take k dst) as Hseen'.
        { apply (seen_S _ _ _ _ Hcc) in Hs' as [?|Heq]; [done|]. by rewrite Heq. }
        destruct (H1 Hpc Hseen') as (l & i' & j0 & -> & Hf & Hd).
        exists l, i', j0. split_and!; [done| |done]. by apply founders_prefix.
      * intros Hn. apply H2. intros [Hpc Hs']. apply Hn. split; [done|].
        apply (seen_S _ _ _ _ Hcc). auto.
Qed.

(** *** Member count and placement *)

Lemma counted_step k remap bm s' :
  total_members bm = length (alive_pixels dst pass k) →
  body_case k remap bm s' →
  total_members s'.2 = length (alive_pixels dst pass (S k)).
Proof.
  intros Hcount Hcase. rewrite alive_pixels_S, length_app. unfold pixel_alive.
  destruct Hcase as [label cc Hl Hcc Hp|label cc m r c row Hl Hcc Hs Hv Hc Hr Hrow
                    |label cc c i row b Hl Hcc Hp Hc Hr Hrow Hb]; simpl; rewrite Hcc.
  - rewrite Hp. simpl. lia.
  - assert (pass cc = true) as -> by (unfold passes; by rewrite Hs).
    pose proof (total_members_insert bm label row (row ++ [new_blob label m r (remains label (length row)) k]) Hrow) as H.
    rewrite sum_list_with_app in H. simpl in *. lia.
  - rewrite Hp.
    pose proof (total_members_insert bm label row
                  (<[i := Blob2.push_back b (Z.of_nat k)]> row) Hrow) as H.
    pose proof (sum_list_with_insert (λ b, length (Blob2.indices b)) row i b
                  (Blob2.push_back b (Z.of_nat k)) Hb) as H'.
    simpl in *. rewrite length_app in H'. simpl in *. lia.
Qed.

Lemma placed_step k remap bm s' :
  placed lmap dst means rsizes min_pts max_size k (remap, bm) →
  body_case k remap bm s' →
  placed lmap dst means rsizes min_pts max_size (S k) s'.
Proof.
  intros Hplaced Hcase j l cc' Hj Hlj Hdj Hpj.
  destruct (decide (j = k)) as [->|Hne].
  - (* the pixel of this iteration *)
    destruct Hcase as [label cc Hl Hcc Hp|label cc m r c row Hl Hcc Hs Hv Hc Hr Hrow
                      |label cc c i row b Hl Hcc Hp Hc Hr Hrow Hb]; simplify_eq/=.
    + congruence.
    + exists c, (length row), (row ++ [new_blob label m r (remains label (length row)) k]), (new_blob label m r (remains label (length row)) k).
      split_and!; [done| | | |].
      * apply list_lookup_insert_eq. by eapply lookup_lt_Some.
      * apply list_lookup_insert_eq. by eapply lookup_lt_Some.
      * by rewrite lookup_app_r, Nat.sub_diag by lia.
      * simpl. apply list_elem_of_here.
    + exists c, i, (<[i := Blob2.push_back b (Z.of_nat k)]> row),
             (Blob2.push_back b (Z.of_nat k)).
      split_and!; [done|done| | |].
      * apply list_lookup_insert_eq. by eapply lookup_lt_Some.
      * apply list_lookup_insert_eq. by eapply lookup_lt_Some.
      * simpl. apply elem_of_app. right. apply list_elem_of_here.
  - (* an earlier pixel *)
    destruct (Hplaced j l cc') as (c0 & i0 & row0 & b0 & Hc0 & Hr0 & Hrow0 & Hb0 & Hin);
      [lia|done..|]. simpl in *.
    destruct Hcase as [label cc Hl Hcc Hp|label cc m r c row Hl Hcc Hs Hv Hc Hr Hrow
                      |label cc c i row b Hl Hcc Hp Hc Hr Hrow Hb]; simpl.
    + by exists c0, i0, row0, b0.
    + assert (c0 ≠ c) as Hcne by (intros ->; rewrite Hr in Hr0; injection Hr0; lia).
      destruct (decide (l = label)) as [->|Hlne].
      * simplify_eq. exists c0, i0, (row ++ [new_blob label m r (remains label (length row)) k]), b0.
        split_and!; [done| | | |done].
        -- by rewrite list_lookup_insert_ne.
        -- apply list_lookup_insert_eq. by eapply lookup_lt_Some.
        -- by apply lookup_app_l_Some.
      * exists c0, i0, row0, b0. split_and!; [done| | |done..].
        -- by rewrite list_lookup_insert_ne.
        -- by rewrite list_lookup_insert_ne.
    + destruct (decide (l = label)) as [->|Hlne].
      * simplify_eq. destruct (decide (i0 = i)) as [->|Hine].
        -- simplify_eq. exists c0, i. eexists _, _.
           split_and!; [done|done| | |].
           ++ apply list_lookup_insert_eq. by eapply lookup_lt_Some.
           ++ apply list_lookup_insert_eq. by eapply lookup_lt_Some.
           ++ simpl. apply elem_of_app. by left.
        -- exists c0, i0, (<[i := Blob2.push_back b (Z.of_nat k)]> row), b0.
           split_and!; [done|done| | |done].
           ++ apply list_lookup_insert_eq. by eapply lookup_lt_Some.
           ++ by rewrite list_lookup_insert_ne.
      * exists c0, i0, row0, b0. split_and!; [done|done| |done..].
        by rewrite list_lookup_insert_ne.
Qed.

(** *** One label per component *)

Lemma gathered_step k remap bm s' :
  one_label lmap dst means rsizes min_pts max_size →
  rows_ok lmap dst means rsizes min_pts max_size k bm →
  remap_ok lmap dst means rsizes min_pts max_size k remap →
  gathered lmap dst means rsizes min_pts max_size k bm →
  body_case k remap bm s' →
  gathered lmap dst means rsizes min_pts max_size (S k) s'.2.
Proof.
  intros Hone Hrows Hremap Hgath Hcase l row' i' b' j0 cc0 Hrow' Hb' Hf Hd.
  destruct Hcase as [label cc Hl Hcc Hp|label cc m r c row Hl Hcc Hs Hv Hc Hr Hrow
                    |label cc c i row b Hl Hcc Hp Hc Hr Hrow Hb]; simpl in *.
  - (* the component does not pass *)
    rewrite (founders_old _ _ _ _ _ cc) in Hf by auto.
    destruct (founders_lookup _ _ _ _ _ _ _ Hf) as (_ & _ & cc1 & Hd1 & _ & Ha).
    assert (cc ≠ cc0) by congruence.
    rewrite (members_miss _ _ _ _ Hcc) by done. by eapply Hgath.
  - (* first pixel of a passing component *)
    assert (pass cc = true) as Hp by (unfold passes; by rewrite Hs).
    apply subscript_Some in Hc as Hcc'. subst cc.
    assert (Z.of_nat c ∉ take k dst) as Hnew.
    { intros Hseen. destruct (Hremap c _ Hr) as [H1 _].
      destruct (H1 Hp Hseen) as (? & ? & ? & ? & _). lia. }
    pose proof (lookup_lt_Some _ _ _ Hrow) as Hlt.
    destruct (decide (l = label)) as [->|Hne].
    + rewrite list_lookup_insert_eq in Hrow' by done. injection Hrow' as <-.
      rewrite (founders_new _ _ _ _ _ _ Hl Hcc Hnew Hp) in Hf.
      pose proof (rows_ok_length _ _ _ _ Hrows Hrow) as Hlen.
      destruct (decide (i' < length row)) as [Hi'|Hi'].
      * rewrite lookup_app_l in Hb' by lia. rewrite lookup_app_l in Hf by lia.
        destruct (founders_lookup _ _ _ _ _ _ _ Hf) as (Hj0 & _).
        assert (Z.of_nat c ≠ cc0).
        { intros <-. apply Hnew, elem_of_take. eauto. }
        rewrite (members_miss _ _ _ _ Hcc) by done. by eapply Hgath.
      * rewrite lookup_app_r in Hb' by lia. rewrite lookup_app_r in Hf by lia.
        destruct (i' - length row) as [|?] eqn:E; [|done].
        replace (i' - length (founded label k)) with 0 in Hf by lia.
        simplify_eq/=. rewrite (members_hit _ _ _ Hcc). unfold members.
        by rewrite (pixels_of_unseen _ _ _ Hnew).
    + rewrite list_lookup_insert_ne in Hrow' by done.
      rewrite (founders_other _ _ _ _ _ _ Hl Hne) in Hf.
      destruct (founders_lookup _ _ _ _ _ _ _ Hf) as (Hj0 & _).
      assert (Z.of_nat c ≠ cc0).
      { intros <-. apply Hnew, elem_of_take. eauto. }
      rewrite (members_miss _ _ _ _ Hcc) by done. by eapply Hgath.
  - (* a later pixel of a passing component *)
    apply subscript_Some in Hc as Hcc'. subst cc.
    assert (Z.of_nat c ∈ take k dst) as Hseen.
    { destruct (Hremap c _ Hr) as [_ H2].
      destruct (decide (Z.of_nat c ∈ take k dst)) as [|Hn]; [done|].
      assert (Z.of_nat i = -1)%Z by (apply H2; tauto). lia. }
    rewrite (founders_old _ _ _ _ _ _ Hcc) in Hf by auto.
    destruct (Hremap c _ Hr) as [H1 _].
    destruct (H1 Hp Hseen) as (l0 & i0 & j00 & Hi0 & Hf0 & Hd0).
    apply Nat2Z.inj in Hi0 as <-.
    destruct (founders_lookup _ _ _ _ _ _ _ Hf0) as (Hj00 & Hl0 & cc1 & Hd1 & Hfirst0 & _).
    assert (cc1 = Z.of_nat c) as -> by congruence.
    assert (l0 = label) as -> by (by eapply (Hone j00 k)).
    destruct (founders_lookup _ _ _ _ _ _ _ Hf) as (Hj0 & Hlj0 & cc2 & Hd2 & Hfirst & _).
    assert (cc2 = cc0) as -> by congruence.
    pose proof (lookup_lt_Some _ _ _ Hrow) as Hlt.
    destruct (decide (l = label)) as [->|Hne].
    + rewrite list_lookup_insert_eq in Hrow' by done. injection Hrow' as <-.
      destruct (decide (i' = i)) as [->|Hine].
      * rewrite list_lookup_insert_eq in Hb' by (by eapply lookup_lt_Some).
        injection Hb' as <-. simplify_eq/=.
        rewrite (members_hit _ _ _ Hcc). f_equal. by eapply Hgath.
      * rewrite list_lookup_insert_ne in Hb' by done.
        assert (Z.of_nat c ≠ cc0).
        { intros <-.
          assert (j0 = j00) as -> by (by eapply first_pixel_unique).
          apply Hine. by eapply NoDup_lookup; [apply NoDup_founders|..]. }
        rewrite (members_miss _ _ _ _ Hcc) by done. by eapply Hgath.
    + rewrite list_lookup_insert_ne in Hrow' by done.
      assert (Z.of_nat c ≠ cc0).
      { intros <-.
        assert (j0 = j00) as -> by (by eapply first_pixel_unique).
        congruence. }
      rewrite (members_miss _ _ _ _ Hcc) by done. by eapply Hgath.
Qed.

(** With one label per component the body runs wherever the arrays are
    long enough. *)
Lemma body_case_exists k remap bm label cc :
  lmap !! k = Some label → dst !! k = Some cc →
  is_Some (stats means rsizes cc) →
  (pass cc = true → ∃ c, subscript cc = Some c ∧ c < length remap ∧ label < length bm) →
  one_label lmap dst means rsizes min_pts max_size →
  rows_ok lmap dst means rsizes min_pts max_size k bm →
  remap_ok lmap dst means rsizes min_pts max_size k remap →
  ∃ s', body_case k remap bm s'.
Proof.
  intros Hl Hcc [[m r] Hs] Hroom Hone Hrows Hremap.
  destruct (pass cc) eqn:Hp; [|eexists; by eapply case_skip].
  destruct Hroom as (c & Hc & Hclt & Hllt); [done|].
  destruct (lookup_lt_is_Some_2 remap c Hclt) as [v Hv].
  destruct (lookup_lt_is_Some_2 bm label Hllt) as [row Hrow].
  apply subscript_Some in Hc as Hcc'. subst cc.
  destruct (Hremap c v Hv) as [H1 H2].
  destruct (decide (Z.of_nat c ∈ take k dst)) as [Hseen|Hnew].
  - destruct (H1 Hp Hseen) as (l0 & i & j0 & -> & Hf & Hd).
    destruct (founders_lookup _ _ _ _ _ _ _ Hf) as (_ & Hl0 & _).
    assert (l0 = label) as -> by (by eapply (Hone j0 k)).
    destruct (lookup_lt_is_Some_2 row i) as [b Hb].
    { rewrite (rows_ok_length _ _ _ _ Hrows Hrow). by eapply lookup_lt_Some. }
    eexists. by eapply case_append.
  - rewrite H2 in Hv by tauto.
    eexists. eapply case_create; [done..| |done|done|done].
    unfold passes in Hp. by rewrite Hs in Hp.
Qed.

(** *** The whole loop *)

Lemma materialized_start size num_parts :
  materialized lmap dst means rsizes min_pts max_size size num_parts 0
    (replicate size (-1)%Z, replicate num_parts []).
Proof.
  split_and!; simpl.
  - apply length_replicate.
  - apply length_replicate.
  - intros l row [-> _]%lookup_replicate. by split.
  - intros c v [-> _]%lookup_replicate. split; [|done].
    intros _ Hin. by apply elem_of_nil in Hin.
  - unfold total_members. induction num_parts as [|? IH]; [done|]. simpl. apply IH.
  - intros j l cc Hj. lia.
Qed.

Lemma gathered_start num_parts :
  gathered lmap dst means rsizes min_pts max_size 0 (replicate num_parts []).
Proof. intros l row i b j0 cc [-> _]%lookup_replicate. done. Qed.

Lemma materialized_step size num_parts k s s' :
  (Z.of_nat k < INT_MAX)%Z →
  materialized lmap dst means rsizes min_pts max_size size num_parts k s →
  body k s = Some s' →
  body_case k s.1 s.2 s' ∧
  materialized lmap dst means rsizes min_pts max_size size num_parts (S k) s'.
Proof.
  intros Hk (Hl1 & Hl2 & Hrows & Hremap & Hcount & Hplaced) Hrun.
  destruct s as [remap bm]. simpl in *.
  pose proof (materialize_cases _ _ _ _ Hk (rows_ok_short _ _ Hrows) Hrun) as Hcase.
  split; [done|].
  destruct (shape_step _ _ _ _ Hrows Hremap Hcase) as [Hrows' Hremap'].
  split_and!; [| |done|done|by eapply counted_step|by eapply placed_step].
  - destruct Hcase; simpl; by rewrite ?length_insert.
  - destruct Hcase; simpl; by rewrite ?length_insert.
Qed.

Lemma second_loop_invariant size num_parts s :
  (Z.of_nat (length dst) ≤ INT_MAX)%Z →
  for_each body (seq 0 (length dst))
           (replicate size (-1)%Z, replicate num_parts []) = Some s →
  materialized lmap dst means rsizes min_pts max_size size num_parts (length dst) s.
Proof.
  intros Hn. apply for_each_invariant.
  - apply materialized_start.
  - intros k a b Hk Ha Hb. eapply materialized_step; [lia|done..].
Qed.

End SecondLoopFacts.

(** ** Numbering the blobs *)

Lemma number_row_content id b row : Forall2 same_content row (number_row id b row).2.
Proof.
  revert id b. induction row as [|blob row IH]; intros id b; simpl; [constructor|].
  specialize (IH (to_int (id + 1)) (S b)).
  destruct (number_row (to_int (id + 1)) (S b) row) as [id' rest]. simpl in *.
  by constructor.
Qed.

Lemma number_blobs_content id bm :
  Forall2 (Forall2 same_content) bm (number_blobs id bm).2.
Proof.
  revert id. induction bm as [|row bm IH]; intros id; simpl; [constructor|].
  pose proof (number_row_content id 0 row) as Hrow.
  destruct (number_row id 0 row) as [id' row']. simpl in *.
  specialize (IH id'). destruct (number_blobs id' bm) as [id'' bm']. simpl in *.
  by constructor.
Qed.

Lemma same_content_first_member row row' :
  Forall2 same_content row row' → first_member <$> row = first_member <$> row'.
Proof.
  induction 1 as [|b b' row row' (_ & _ & Hi) _ IH]; simpl; [done|].
  f_equal; [|exact IH]. unfold first_member. by rewrite Hi.
Qed.

Lemma same_content_total_members bm bm' :
  Forall2 (Forall2 same_content) bm bm' → total_members bm = total_members bm'.
Proof.
  unfold total_members.
  induction 1 as [|row row' bm bm' Hrow _ IH]; simpl; [done|].
  rewrite !sum_list_with_app, IH. f_equal.
  clear -Hrow. induction Hrow as [|b b' row row' (_ & _ & Hi) _ IH]; simpl; [done|].
  rewrite Hi. by f_equal.
Qed.

Lemma same_content_concat bm bm' :
  Forall2 (Forall2 same_content) bm bm' → length (concat bm) = length (concat bm').
Proof.
  induction 1 as [|row row' bm bm' Hrow _ IH]; simpl; [done|].
  by rewrite !length_app, IH, (Forall2_length _ _ _ Hrow).
Qed.

Lemma number_blobs_empty id n : number_blobs id (replicate n []) = (id, replicate n []).
Proof. induction n as [|n IH]; simpl; [done|]. by rewrite IH. Qed.

Lemma number_row_ids id b row :
  (0 ≤ id)%Z → (id + Z.of_nat (length row) ≤ INT_MAX)%Z →
  (Z.of_nat (b + length row) ≤ INT_MAX + 1)%Z →
  (number_row id b row).1 = (id + Z.of_nat (length row))%Z ∧
  Blob2.id <$> (number_row id b row).2 = seqZ id (Z.of_nat (length row)) ∧
  Blob2.lid <$> (number_row id b row).2 = seqZ (Z.of_nat b) (Z.of_nat (length row)).
Proof.
  revert id b. induction row as [|blob row IH]; intros id b Hid Hmax Hb; simpl in *.
  { split_and!; [lia|done..]. }
  assert (to_int (id + 1) = id + 1)%Z as ->
    by (apply to_int_small; unfold INT_MAX in *; lia).
  destruct (IH (id + 1)%Z (S b)) as (H1 & H2 & H3); [lia..|].
  destruct (number_row (id + 1) (S b) row) as [id' rest]. simpl in *.
  rewrite !(seqZ_cons _ (Z.of_nat (S (length row)))) by lia.
  replace (Z.pred (Z.of_nat (S (length row)))) with (Z.of_nat (length row)) by lia.
  rewrite to_int_of_nat by lia.
  split_and!; [lia| |].
  - f_equal. etrans; [exact H2|]. by replace (Z.succ id) with (id + 1)%Z by lia.
  - f_equal. etrans; [exact H3|].
    by replace (Z.of_nat (S b)) with (Z.succ (Z.of_nat b)) by lia.
Qed.

Lemma number_blobs_ids id bm :
  (0 ≤ id)%Z → (id + Z.of_nat (length (concat bm)) ≤ INT_MAX)%Z →
  (number_blobs id bm).1 = (id + Z.of_nat (length (concat bm)))%Z ∧
  Blob2.id <$> concat (number_blobs id bm).2 = seqZ id (Z.of_nat (length (concat bm))) ∧
  Forall (λ row, Blob2.lid <$> row = seqZ 0 (Z.of_nat (length row))) (number_blobs id bm).2.
Proof.
  revert id. induction bm as [|row bm IH]; intros id Hid Hmax; simpl in *.
  { split_and!; [lia|done|constructor]. }
  rewrite length_app in Hmax.
  destruct (number_row_ids id 0 row) as (H1 & H2 & H3); [lia..|].
  pose proof (Forall2_length _ _ _ (number_row_content id 0 row)) as Hlen.
  destruct (number_row id 0 row) as [id' row']. simpl in *. subst id'.
  destruct (IH (id + Z.of_nat (length row))%Z) as (H4 & H5 & H6); [lia..|].
  destruct (number_blobs (id + Z.of_nat (length row)) bm) as [id'' bm']. simpl in *.
  rewrite length_app, fmap_app, H2, H5.
  split_and!.
  - lia.
  - rewrite Nat2Z.inj_add. by rewrite seqZ_app by lia.
  - constructor; [|done]. by rewrite <- Hlen.
Qed.

(** ** process as a whole *)

Lemma fmap_const_replicate {A B : Type} (c : B) (l : list A) :
  (λ _, c) <$> l = replicate (length l) c.
Proof. induction l as [|a l IH]; simpl; [done|]. by f_equal. Qed.

Section ProcessFacts.

Variable NUM_PARTS : nat.

(** Where the sizes fit, they are the products of the dimensions. *)
Lemma allocate_buffers_fits rows cols d :
  fits rows cols →
  allocate_buffers NUM_PARTS rows cols d =
  Some {| max_cluster_size_ := max_cluster_size_ d;
          cluster_tolerance_ := cluster_tolerance_ d;
          lmap_host_ := resize (rows * cols) 0 (lmap_host_ d);
          dst_labels_ := resize (rows * cols) 0%Z (dst_labels_ d);
          region_sizes_ := resize (rows * cols + 1) 0%Z (region_sizes_ d);
          remap_ := resize (rows * cols) 0%Z (remap_ d);
          means_storage_ := resize (rows * cols + 1) float3.zero (means_storage_ d);
          blob_matrix_ := (λ _, []) <$> resize NUM_PARTS [] (blob_matrix_ d);
          remains_ := remains_ d |}.
Proof.
  intros (Hr & Hc & Hn). unfold allocate_buffers.
  rewrite Nat2Z.inj_mul in Hn.
  assert (0 ≤ Z.of_nat rows * Z.of_nat cols)%Z as Hpos by lia.
  rewrite (checked_Some (Z.of_nat rows)) by lia. simpl.
  rewrite (checked_Some (Z.of_nat cols)) by lia. simpl.
  rewrite (checked_Some (Z.of_nat rows * Z.of_nat cols)) by lia. simpl.
  rewrite (checked_Some (Z.of_nat rows * Z.of_nat cols + 1)) by lia. simpl.
  rewrite (checked_Some (Z.of_nat cols * Z.of_nat rows)) by lia. simpl.
  rewrite (checked_Some (Z.of_nat cols * Z.of_nat rows + 1)) by lia. simpl.
  rewrite (checked_Some ((Z.of_nat cols * Z.of_nat rows + 1) * 3)) by lia. simpl.
  replace (Z.to_nat (Z.of_nat rows * Z.of_nat cols)) with (rows * cols) by lia.
  replace (Z.to_nat (Z.of_nat rows * Z.of_nat cols + 1)) with (rows * cols + 1) by lia.
  replace (Z.to_nat ((Z.of_nat cols * Z.of_nat rows + 1) * 3))
    with ((rows * cols + 1) * 3) by lia.
  change (Nat.divmod ((rows * cols + 1) * 3) 2 0 2).1
    with (((rows * cols + 1) * 3) `div` 3).
  by rewrite Nat.div_mul by done.
Qed.

(** Where they do not, one of the [int] expressions overflows. *)
Lemma allocate_buffers_Some rows cols d d' :
  allocate_buffers NUM_PARTS rows cols d = Some d' → fits rows cols.
Proof.
  unfold allocate_buffers, fits. intros H.
  repeat match type of H with
  | context [checked ?v] =>
      let E := fresh "E" in
      destruct (checked v) eqn:E; simpl in H;
      [apply checked_inv in E as [-> ?]|done]
  end.
  rewrite Nat2Z.inj_mul. lia.
Qed.

(** The buffers are resized and refilled before they are read: nothing of
    the detector's previous contents reaches the loops, except the remains
    of the storage. *)
Lemma process_unfold d rows cols labels comps cloud min_pts :
  fits rows cols → 1 ≤ rows * cols →
  process NUM_PARTS d rows cols labels comps cloud min_pts =
  '(means0, rsizes) ←
     for_each (accumulate cloud comps) (seq 0 (length comps))
              (replicate (rows * cols + 1) float3.zero, replicate (rows * cols + 1) 0%Z);
  means ← invalidate means0;
  '(remap, bm) ←
     for_each (materialize (remains_ d) labels comps means rsizes min_pts
                           (max_cluster_size_ d))
              (seq 0 (length comps))
              (replicate (rows * cols) (-1)%Z, replicate NUM_PARTS []);
  Some (mkDetector (max_cluster_size_ d) (cluster_tolerance_ d) labels comps
                   rsizes remap means (number_blobs 0 bm).2 (remains_ d)).
Proof.
  intros Hfits Hpix. unfold process. rewrite allocate_buffers_fits by done.
  unfold fill. simpl.
  rewrite !fmap_const_replicate, !length_replicate, !length_resize.
  by rewrite !lookup_replicate_2 by lia.
Qed.

(** A run that ends was given a frame of at least one pixel whose sizes
    fit. *)
Lemma process_fits d rows cols labels comps cloud min_pts d' :
  process NUM_PARTS d rows cols labels comps cloud min_pts = Some d' →
  fits rows cols ∧ 1 ≤ rows * cols.
Proof.
  unfold process.
  destruct (allocate_buffers NUM_PARTS rows cols d) as [d0|] eqn:Hd; [|done].
  pose proof (allocate_buffers_Some _ _ _ _ Hd) as Hfits.
  rewrite (allocate_buffers_fits _ _ _ Hfits) in Hd. injection Hd as <-.
  unfold fill. simpl. rewrite !length_resize.
  destruct (replicate (rows * cols + 1) float3.zero !! 1) eqn:H1; [|done].
  apply lookup_replicate in H1 as [_ H1]. intros _. split; [done|lia].
Qed.

Lemma well_formed_fits rows cols labels comps cloud :
  well_formed rows cols labels comps cloud → fits rows cols ∧ 1 ≤ rows * cols.
Proof.
  intros [Hpix Hint _ _ _ _]. unfold fits. split; [|done].
  assert (rows ≤ rows * cols ∧ cols ≤ rows * cols) as [? ?]
    by (destruct rows, cols; nia).
  split_and!; [lia|lia|done].
Qed.

Lemma process_facts d rows cols labels comps cloud min_pts d' :
  (Z.of_nat (length comps) ≤ INT_MAX)%Z →
  process NUM_PARTS d rows cols labels comps cloud min_pts = Some d' →
  ∃ means0 bm,
    accumulated comps cloud (rows * cols + 1) (length comps)
                (means0, region_sizes_ d') ∧
    invalidate means0 = Some (means_storage_ d') ∧
    materialized labels comps (means_storage_ d') (region_sizes_ d') min_pts
                 (max_cluster_size_ d) (rows * cols) NUM_PARTS (length comps)
                 (remap_ d', bm) ∧
    blob_matrix_ d' = (number_blobs 0 bm).2.
Proof.
  intros Hn Hrun. destruct (process_fits _ _ _ _ _ _ _ _ Hrun) as [Hfits Hpix].
  revert Hrun. rewrite process_unfold by done.
  destruct (for_each (accumulate cloud comps) _ _) as [[means0 rsizes]|] eqn:H1; [|done].
  simpl. destruct (invalidate means0) as [means|] eqn:H2; [|done]. simpl.
  destruct (for_each (materialize _ _ _ _ _ _ _) _ _) as [[remap bm]|] eqn:H3; [|done].
  simpl. intros [= <-]. simpl. exists means0, bm. split_and!; [|done| |done].
  - by apply first_loop_invariant.
  - by eapply second_loop_invariant.
Qed.

(** At most one blob for each passing pixel. *)
Lemma blob_count labels comps means rsizes min_pts max_size k bm :
  rows_ok labels comps means rsizes min_pts max_size k bm →
  total_members bm = length (alive_pixels comps (passes means rsizes min_pts max_size) k) →
  length (concat bm) ≤ k.
Proof.
  intros Hrows Hcount.
  assert (length (concat bm) ≤ total_members bm) as Hle.
  { unfold total_members.
    assert (Forall (λ b, 1 ≤ length (Blob2.indices b)) (concat bm)) as Hall.
    { apply Forall_concat, Forall_lookup. intros l row Hrow.
      destruct (Hrows l row Hrow) as [Hf _]. eapply Forall_impl; [done|].
      intros b (_ & _ & ? & ? & ? & ? & ? & -> & _). simpl. lia. }
    induction Hall as [|b bs Hb _ IH]; simpl; lia. }
  rewrite Hcount in Hle. etrans; [done|].
  unfold alive_pixels. etrans; [apply length_filter|]. by rewrite length_seq.
Qed.

(** What any run of [process] that ends leaves in the detector. *)
Lemma process_blobs d rows cols labels comps cloud min_pts d' :
  (Z.of_nat (length comps) ≤ INT_MAX)%Z →
  process NUM_PARTS d rows cols labels comps cloud min_pts = Some d' →
  let alive := survives comps cloud min_pts (max_cluster_size_ d) in
  length (blob_matrix_ d') = NUM_PARTS ∧
  (∀ l row, blob_matrix_ d' !! l = Some row →
     Forall (blob_of_frame labels comps cloud min_pts (max_cluster_size_ d) l) row ∧
     first_member <$> row =
       (λ j, Some (Z.of_nat j)) <$> founders labels comps alive l (length comps)) ∧
  total_members (blob_matrix_ d') = length (alive_pixels comps alive (length comps)) ∧
  (∀ j l cc, labels !! j = Some l → comps !! j = Some cc → alive cc = true →
     ∃ c i row b l0 j0,
       cc = Z.of_nat c ∧ remap_ d' !! c = Some (Z.of_nat i) ∧
       founders labels comps alive l0 (length comps) !! i = Some j0 ∧
       comps !! j0 = Some cc ∧
       blob_matrix_ d' !! l = Some row ∧ row !! i = Some b ∧
       Z.of_nat j ∈ Blob2.indices b) ∧
  Blob2.id <$> concat (blob_matrix_ d') =
    seqZ 0 (Z.of_nat (length (concat (blob_matrix_ d')))) ∧
  Forall (λ row, Blob2.lid <$> row = seqZ 0 (Z.of_nat (length row))) (blob_matrix_ d').
Proof.
  intros Hn Hrun alive.
  destruct (process_facts _ _ _ _ _ _ _ _ Hn Hrun)
    as (means0 & bm & Hacc & Hinv & (Hl1 & Hl2 & Hrows & Hremap & Hcount & Hplaced) & ->).
  simpl in *.
  pose proof (λ cc, passes_survives _ _ _ _ _ _ min_pts (max_cluster_size_ d) cc
                               Hacc Hinv) as Hpass.
  pose proof (number_blobs_content 0 bm) as Hsame.
  pose proof (blob_count _ _ _ _ _ _ _ _ Hrows Hcount) as Hblobs.
  destruct (number_blobs_ids 0 bm) as (_ & Hids & Hlids); [lia..|].
  split_and!.
  - by rewrite <- (Forall2_length _ _ _ Hsame).
  - intros l row' Hrow'.
    destruct (Forall2_lookup_r _ _ _ _ _ Hsame Hrow') as (row & Hrow & Hcontent).
    destruct (Hrows l row Hrow) as [Hf He]. split.
    + apply Forall_lookup. intros i b' Hb'.
      destruct (Forall2_lookup_r _ _ _ _ _ Hcontent Hb') as (b & Hb & Hlb & Hmb & Hib).
      destruct (Forall_lookup_1 _ _ _ _ Hf Hb)
        as (Hlabel & Hmem & j0 & rest & cc & m & r & Hi & Hd & Hs & Hmean).
      assert (Forall (member_of_frame labels comps cloud min_pts (max_cluster_size_ d) l)
                     (Blob2.indices b)) as Hmem'.
      { eapply Forall_impl; [done|]. intros m' (j & -> & _ & Hlj & Ha).
        unfold pixel_alive in Ha. destruct (comps !! j) as [cc'|] eqn:Hd'; [|done].
        exists j, cc'. by rewrite <- Hpass. }
      split_and!; [congruence|by rewrite <- Hib|].
      exists j0, rest, cc. split_and!; [congruence|done|].
      rewrite <- Hmb, Hmean. unfold mean_of.
      assert (cc ≠ -1)%Z as Hne.
      { rewrite Hi in Hmem'. apply Forall_cons_1 in Hmem' as [(j & cc' & Hj & _ & Hd' & Ha) _].
        apply Nat2Z.inj in Hj as <-. rewrite Hd in Hd'. injection Hd' as <-.
        unfold survives in Ha. apply andb_true_iff in Ha as [Ha _].
        by apply bool_decide_eq_true in Ha. }
      destruct (stats_after _ _ _ _ _ _ _ _ _ Hacc Hinv Hs) as (-> & Hm & _).
      by rewrite Hm.
    + rewrite <- (same_content_first_member _ _ Hcontent), He.
      by rewrite (founders_ext _ _ _ alive) by done.
  - rewrite <- (same_content_total_members _ _ Hsame), Hcount.
    by rewrite (alive_pixels_ext _ _ alive) by done.
  - intros j l cc Hl Hd Ha.
    destruct (Hplaced j l cc) as (c & i & row & b & Hc & Hr & Hrow & Hb & Hin);
      [by eapply lookup_lt_Some|done|done|by rewrite Hpass|]. simpl in *.
    destruct (Forall2_lookup_l _ _ _ _ _ Hsame Hrow) as (row' & Hrow' & Hcontent).
    destruct (Forall2_lookup_l _ _ _ _ _ Hcontent Hb) as (b' & Hb' & _ & _ & Hib).
    apply subscript_Some in Hc as ->.
    destruct (Hremap c _ Hr) as [H1 _].
    destruct H1 as (l0 & i0 & j0 & Hi0 & Hf0 & Hd0).
    { by rewrite Hpass. }
    { apply elem_of_take. exists j. split; [done|]. by eapply lookup_lt_Some. }
    apply Nat2Z.inj in Hi0 as <-.
    exists c, i, row', b', l0, j0.
    split_and!; [done|done| |done|done|done|by rewrite <- Hib].
    by rewrite <- (founders_ext _ _ _ alive) by done.
  - rewrite Hids. by rewrite <- (same_content_concat _ _ Hsame).
  - done.
Qed.

Lemma survives_not_sentinel dst cloud min_pts max_size cc :
  survives dst cloud min_pts max_size cc = true → cc ≠ (-1)%Z.
Proof.
  unfold survives. intros [H _]%andb_true_iff. by apply bool_decide_eq_true in H.
Qed.

(** On a well-formed frame whose components carry one label each, [process]
    runs to its end, and every blob holds the pixels of its component. *)
Lemma process_runs d rows cols labels comps cloud min_pts :
  well_formed rows cols labels comps cloud →
  label_homogeneous NUM_PARTS labels comps →
  ∃ d', process NUM_PARTS d rows cols labels comps cloud min_pts = Some d' ∧
    ∀ l row i b j0 cc,
      blob_matrix_ d' !! l = Some row → row !! i = Some b →
      founders labels comps (survives comps cloud min_pts (max_cluster_size_ d)) l
               (length comps) !! i = Some j0 →
      comps !! j0 = Some cc →
      Blob2.indices b = members comps cc (length comps).
Proof.
  intros Hwf Hhom. destruct (well_formed_fits _ _ _ _ _ Hwf) as [Hfits Hpix].
  rewrite process_unfold by done. clear Hfits.
  destruct Hwf as [_ Hint Hlmap Hdst Hcloud Hrange]. rewrite <- Hdst in *.
  destruct (first_loop_total comps cloud (length comps + 1))
    as ([means0 rsizes] & -> & Hacc); [lia|lia| |].
  { eapply Forall_impl; [exact Hrange|]. simpl. lia. }
  simpl. destruct (invalidate_runs _ _ _ _ _ Hacc) as [means Hinv]; [lia|].
  rewrite Hinv. simpl.
  pose proof (λ cc, passes_survives _ _ _ _ _ _ min_pts (max_cluster_size_ d) cc
                               Hacc Hinv) as Hpass.
  assert (one_label labels comps means rsizes min_pts (max_cluster_size_ d)) as Hone.
  { intros j j' cc l l' Hj Hj' Hp Hl Hl'. rewrite Hpass in Hp.
    apply survives_not_sentinel in Hp.
    destruct (Hhom j cc l Hj Hp Hl) as [_ Hall]. specialize (Hall j' Hj'). congruence. }
  destruct (for_each_total
              (λ k s, materialized labels comps means rsizes min_pts (max_cluster_size_ d)
                                   (length comps) NUM_PARTS k s ∧
                      gathered labels comps means rsizes min_pts (max_cluster_size_ d) k s.2)
              (materialize (remains_ d) labels comps means rsizes min_pts
                           (max_cluster_size_ d))
              (length comps) (replicate (length comps) (-1)%Z, replicate NUM_PARTS []))
    as ([remap bm] & -> & Hmat & Hgath).
  { split; [apply materialized_start|apply gathered_start]. }
  { intros k [remap bm] Hk [Hmat Hgath].
    pose proof Hmat as (Hl1 & Hl2 & Hrows & Hremap & _). simpl in *.
    destruct (lookup_lt_is_Some_2 labels k) as [label Hl]; [lia|].
    destruct (lookup_lt_is_Some_2 comps k Hk) as [cc Hcc].
    destruct (Forall_lookup_1 _ _ _ _ Hrange Hcc) as [Hlo Hhi].
    assert (is_Some (stats means rsizes cc)) as Hst.
    { eapply stats_defined; [done..|lia]. }
    destruct (body_case_exists (remains_ d) labels comps means rsizes min_pts
                (max_cluster_size_ d) k remap bm label cc) as [s' Hcase]; [done|done|done| |done|done|done|].
    { intros Hp. rewrite Hpass in Hp. apply survives_not_sentinel in Hp.
      exists (Z.to_nat cc). split_and!.
      - unfold subscript. by rewrite decide_True by lia.
      - lia.
      - rewrite Hl2. by destruct (Hhom k cc label Hcc Hp Hl). }
    assert (materialize (remains_ d) labels comps means rsizes min_pts
                        (max_cluster_size_ d) k (remap, bm) = Some s') as Hrun.
    { apply materialize_case_runs; [lia|by eapply rows_ok_short| |done].
      rewrite Hcc. by simpl. }
    exists s'. split; [done|]. split.
    - eapply materialized_step; [|done..]. lia.
    - by eapply gathered_step. }
  simpl. eexists. split; [done|]. simpl.
  intros l row' i b' j0 cc Hrow' Hb' Hf Hd.
  pose proof (number_blobs_content 0 bm) as Hsame.
  destruct (Forall2_lookup_r _ _ _ _ _ Hsame Hrow') as (row & Hrow & Hcontent).
  destruct (Forall2_lookup_r _ _ _ _ _ Hcontent Hb') as (b & Hb & _ & _ & <-).
  eapply Hgath; [done..| |done].
  by rewrite (founders_ext _ _ _ (survives comps cloud min_pts (max_cluster_size_ d))).
Qed.

(** Where no component passes, the second loop changes nothing. *)
Lemma process_without_survivors d rows cols labels comps cloud min_pts :
  well_formed rows cols labels comps cloud →
  Forall (λ cc, survives comps cloud min_pts (max_cluster_size_ d) cc = false) comps →
  ∃ d', process NUM_PARTS d rows cols labels comps cloud min_pts = Some d' ∧
        blob_matrix_ d' = replicate NUM_PARTS [].
Proof.
  intros Hwf Hnone. destruct (well_formed_fits _ _ _ _ _ Hwf) as [Hfits Hpix].
  rewrite process_unfold by done. clear Hfits.
  destruct Hwf as [_ Hint Hlmap Hdst Hcloud Hrange]. rewrite <- Hdst in *.
  destruct (first_loop_total comps cloud (length comps + 1))
    as ([means0 rsizes] & -> & Hacc); [lia|lia| |].
  { eapply Forall_impl; [exact Hrange|]. simpl. lia. }
  simpl. destruct (invalidate_runs _ _ _ _ _ Hacc) as [means Hinv]; [lia|].
  rewrite Hinv. simpl.
  destruct (for_each_total
              (λ _ s, s = (replicate (length comps) (-1)%Z, replicate NUM_PARTS []))
              (materialize (remains_ d) labels comps means rsizes min_pts
                           (max_cluster_size_ d))
              (length comps) (replicate (length comps) (-1)%Z, replicate NUM_PARTS []))
    as (s & -> & ->); [done| |].
  { intros k s Hk ->. eexists. split; [|done].
    destruct (lookup_lt_is_Some_2 labels k) as [label Hl]; [lia|].
    destruct (lookup_lt_is_Some_2 comps k Hk) as [cc Hcc].
    destruct (Forall_lookup_1 _ _ _ _ Hrange Hcc) as [Hlo Hhi].
    apply materialize_case_runs.
    - lia.
    - intros l row [-> _]%lookup_replicate. simpl. lia.
    - rewrite Hcc. simpl. eapply stats_defined; [done..|lia].
    - eapply case_skip; [done..|].
      rewrite (passes_survives _ _ _ _ _ _ _ _ _ Hacc Hinv).
      by apply (Forall_lookup_1 _ _ _ _ Hnone Hcc). }
  simpl. eexists. split; [done|]. simpl. by rewrite number_blobs_empty.
Qed.

End ProcessFacts.


(** ** What the storage leaves in the blobs *)












Section Remains.

Variable remains : nat → nat → float.
Variable lmap : list nat.
Variable dst : list Z.
Variable means : list float3.t.
Variable rsizes : list Z.
Variables min_pts max_size : Z.

Lemma untouched_step k remap bm s' :
  untouched remains bm →
  materialize_case remains lmap dst means rsizes min_pts max_size k remap bm s' →
  untouched remains s'.2.
Proof.
  intros Hkept Hcase.
  destruct Hcase as [| label cc m r c row _ _ _ _ _ _ Hrow
                     | label cc c i row b _ _ _ _ _ Hrow Hb]; simpl; [done|..].
  - intros l row' i b' [(<- & <- & _)|[_ Hl]]%list_lookup_insert_Some Hb;
      [|by eapply Hkept].
    apply lookup_snoc_Some in Hb as [[_ Hi]|[-> <-]]; [by eapply Hkept|done].
  - intros l row' i' b' [(<- & <- & _)|[_ Hl]]%list_lookup_insert_Some Hb';
      [|by eapply Hkept].
    apply list_lookup_insert_Some in Hb' as [(<- & <- & _)|[_ Hi]]; simpl;
      by eapply Hkept.
Qed.

End Remains.

Lemma same_content_untouched remains bm bm' :
  Forall2 (Forall2 same_content) bm bm' → untouched remains bm → untouched remains bm'.
Proof.
  intros Hsame Hkept l row' i b' Hrow' Hb'.
  destruct (Forall2_lookup_r _ _ _ _ _ Hsame Hrow') as (row & Hrow & Hcontent).
  destruct (Forall2_lookup_r _ _ _ _ _ Hcontent Hb') as (b & Hb & _ & <- & _).
  by eapply Hkept.
Qed.

(** [process] never writes coefficient 3 of a mean: every blob of the
    matrix has there what the storage held. *)
Lemma process_keeps_remains NUM_PARTS d rows cols labels comps cloud min_pts d' :
  (Z.of_nat (length comps) ≤ INT_MAX)%Z →
  process NUM_PARTS d rows cols labels comps cloud min_pts = Some d' →
  untouched (remains_ d) (blob_matrix_ d').
Proof.
  intros Hn Hrun. destruct (process_fits _ _ _ _ _ _ _ _ _ Hrun) as [Hfits Hpix].
  revert Hrun. rewrite process_unfold by done.
  destruct (for_each (accumulate cloud comps) _ _) as [[means0 rsizes]|]; [|done].
  simpl. destruct (invalidate means0) as [means|]; [|done]. simpl.
  destruct (for_each (materialize _ _ _ _ _ _ _) _ _) as [[remap bm]|] eqn:Hloop; [|done].
  simpl. intros [= <-]. simpl.
  apply (same_content_untouched _ bm); [apply number_blobs_content|].
  apply (for_each_invariant
           (λ k s, materialized labels comps means rsizes min_pts (max_cluster_size_ d)
                                (rows * cols) NUM_PARTS k s ∧
                   untouched (remains_ d) s.2)) in Hloop as [_ Hkept]; [done| |].
  - split; [apply materialized_start|].
    by intros l row i b [-> _]%lookup_replicate.
  - intros k a b Hk [Hmat Hkept] Hstep.
    assert (Z.of_nat k < INT_MAX)%Z as Hk' by lia.
    destruct (materialized_step _ _ _ _ _ _ _ _ _ _ _ _ Hk' Hmat Hstep) as [Hcase Hmat'].
    split; [done|]. by eapply untouched_step.
Qed.

(** ** Blobs and components *)

(** In a run that ends on a frame whose components carry one label each,
    every blob holds the pixels of its component. *)
Lemma process_gathers NUM_PARTS d rows cols labels comps cloud min_pts d' :
  (Z.of_nat (length comps) ≤ INT_MAX)%Z →
  process NUM_PARTS d rows cols labels comps cloud min_pts = Some d' →
  label_homogeneous NUM_PARTS labels comps →
  ∀ l row i b j0 cc,
    blob_matrix_ d' !! l = Some row → row !! i = Some b →
    founders labels comps (survives comps cloud min_pts (max_cluster_size_ d)) l
             (length comps) !! i = Some j0 →
    comps !! j0 = Some cc →
    Blob2.indices b = members comps cc (length comps).
Proof.
  intros Hn Hrun Hhom.
  destruct (process_fits _ _ _ _ _ _ _ _ _ Hrun) as [Hfits Hpix].
  revert Hrun. rewrite process_unfold by done.
  destruct (for_each (accumulate cloud comps) _ _) as [[means0 rsizes]|] eqn:H1; [|done].
  simpl. destruct (invalidate means0) as [means|] eqn:Hinv; [|done]. simpl.
  destruct (for_each (materialize _ _ _ _ _ _ _) _ _) as [[remap bm]|] eqn:Hloop; [|done].
  simpl. intros [= <-]. simpl.
  apply first_loop_invariant in H1 as Hacc; [|done].
  pose proof (λ cc, passes_survives _ _ _ _ _ _ min_pts (max_cluster_size_ d) cc
                               Hacc Hinv) as Hpass.
  assert (one_label labels comps means rsizes min_pts (max_cluster_size_ d)) as Hone.
  { intros j j' cc l l' Hj Hj' Hp Hl Hl'. rewrite Hpass in Hp.
    apply survives_not_sentinel in Hp.
    destruct (Hhom j cc l Hj Hp Hl) as [_ Hall]. specialize (Hall j' Hj'). congruence. }
  apply (for_each_invariant
           (λ k s, materialized labels comps means rsizes min_pts (max_cluster_size_ d)
                                (rows * cols) NUM_PARTS k s ∧
                   gathered labels comps means rsizes min_pts (max_cluster_size_ d) k s.2))
    in Hloop as [_ Hgath].
  - intros l row' i b' j0 cc Hrow' Hb' Hf Hd.
    pose proof (number_blobs_content 0 bm) as Hsame.
    destruct (Forall2_lookup_r _ _ _ _ _ Hsame Hrow') as (row & Hrow & Hcontent).
    destruct (Forall2_lookup_r _ _ _ _ _ Hcontent Hb') as (b & Hb & _ & _ & <-).
    eapply Hgath; [done..| |done].
    by rewrite (founders_ext _ _ _ (survives comps cloud min_pts (max_cluster_size_ d))).
  - split; [apply materialized_start|apply gathered_start].
  - intros k a b Hk [Hmat Hgath] Hstep.
    assert (Z.of_nat k < INT_MAX)%Z as Hk' by lia.
    destruct (materialized_step _ _ _ _ _ _ _ _ _ _ _ _ Hk' Hmat Hstep) as [Hcase Hmat'].
    split; [done|]. destruct Hmat as (_ & _ & Hrows & Hremap & _).
    by eapply gathered_step.
Qed.
(** * Main results *)

(** ** The frames of the examples *)

Lemma frame_B_well_formed : well_formed 2 2 labels_A comps_A cloud_B.
Proof.
  split; [simpl; lia|by vm_compute|done|done|done|].
  repeat constructor; by vm_compute.
Qed.

Lemma frame_B_homogeneous : label_homogeneous 25 labels_A comps_A.
Proof.
  intros [|[|[|[|j]]]] cc l Hc Hne Hl; simplify_eq/=; (split; [lia|]);
    intros [|[|[|[|j']]]] Hc'; by simplify_eq/=.
Qed.

Lemma frame_S_well_formed : well_formed 2 2 labels_S comps_S cloud_B.
Proof.
  split; [simpl; lia|by vm_compute|done|done|done|].
  repeat constructor; by vm_compute.
Qed.

(** C1 (amended). On a well-formed frame, one of at least one pixel whose
    buffer sizes fit an [int], in which the pixels of every component other
    than the sentinel share one label, a body part, [process] ends and every
    blob of the matrix has between [min_pts_per_cluster] and
    [max_cluster_size_] members. *)
Theorem blob_sizes_within_bounds NUM_PARTS d rows cols labels comps cloud min_pts :
  well_formed rows cols labels comps cloud →
  label_homogeneous NUM_PARTS labels comps →
  ∃ d', process NUM_PARTS d rows cols labels comps cloud min_pts = Some d' ∧
        ∀ row b, row ∈ blob_matrix_ d' → b ∈ row →
          (min_pts ≤ Z.of_nat (length (Blob2.indices b)) ≤ max_cluster_size_ d)%Z.
Proof.
  intros Hwf Hhom.
  destruct (process_runs NUM_PARTS d _ _ _ _ _ min_pts Hwf Hhom) as (d' & Hrun & Hgath).
  exists d'. split; [done|]. intros row b Hrow Hb.
  assert (Z.of_nat (length comps) ≤ INT_MAX)%Z as Hn.
  { destruct Hwf as [_ Hint _ Hdst _ _]. rewrite Hdst. lia. }
  destruct (process_blobs _ _ _ _ _ _ _ _ _ Hn Hrun) as (_ & Hrows & _).
  apply list_elem_of_lookup_1 in Hrow as [l Hrow].
  apply list_elem_of_lookup_1 in Hb as [i Hb].
  destruct (Hrows l row Hrow) as [_ He].
  apply (f_equal (.!! i)) in He. rewrite !list_lookup_fmap, Hb in He. simpl in He.
  destruct (founders _ _ _ _ _ !! i) as [j0|] eqn:Hf; [|done].
  destruct (founders_lookup _ _ _ _ _ _ _ Hf) as (_ & _ & cc & Hd & _ & Ha).
  rewrite (Hgath l row i b j0 cc Hrow Hb Hf Hd). unfold members. rewrite length_fmap.
  unfold survives, is_valid, count_of in Ha.
  apply andb_true_iff in Ha as [_ Ha]. apply andb_true_iff in Ha as [Ha Hmax].
  apply andb_true_iff in Ha as [_ Hmin]. lia.
Qed.

Lemma blob_sizes_within_bounds_witness :
  well_formed 2 2 labels_A comps_A cloud_B ∧
  label_homogeneous 25 labels_A comps_A ∧
  ∃ d', process 25 detector_A 2 2 labels_A comps_A cloud_B 1 = Some d' ∧
        ∀ row b, row ∈ blob_matrix_ d' → b ∈ row →
          (1 ≤ Z.of_nat (length (Blob2.indices b)) ≤ max_cluster_size_ detector_A)%Z.
Proof.
  split; [exact frame_B_well_formed|]. split; [exact frame_B_homogeneous|].
  exact (blob_sizes_within_bounds 25 detector_A 2 2 labels_A comps_A cloud_B 1
           frame_B_well_formed frame_B_homogeneous).
Defined.

(** C1 as stated fails where a component straddles two labels: the frame
    below meets every precondition of the claim, component 0 has two pixels
    and passes with [min_pts_per_cluster = 2], but its second pixel carries
    label 1 and is appended to a blob of row 1, which leaves the blob of
    component 0 with one member. *)
Lemma straddling_component_leaves_undersized_blob :
  well_formed 2 2 labels_S comps_S cloud_B ∧
  (0 ≤ 2)%Z ∧ (2 < max_cluster_size_ fresh)%Z ∧
  ∃ d' row b,
    process 25 fresh 2 2 labels_S comps_S cloud_B 2 = Some d' ∧
    row ∈ blob_matrix_ d' ∧ b ∈ row ∧
    ¬ (2 ≤ Z.of_nat (length (Blob2.indices b)) ≤ max_cluster_size_ fresh)%Z.
Proof.
  split; [exact frame_S_well_formed|]. split; [done|]. split; [done|].
  eexists _, _, _. split; [vm_compute; reflexivity|].
  split; [apply list_elem_of_here|]. split; [apply list_elem_of_here|].
  vm_compute. intros [H _]. by apply H.
Qed.

(** C2. For every input on which [process] ends, no pixel whose component is
    the sentinel [-1] is a member of a blob, and no blob is made for the
    sentinel: every blob has a first member, and every member is a pixel of
    a component other than [-1]. *)
Theorem sentinel_never_in_a_blob NUM_PARTS d rows cols labels comps cloud min_pts d' :
  (Z.of_nat (length comps) ≤ INT_MAX)%Z →
  process NUM_PARTS d rows cols labels comps cloud min_pts = Some d' →
  ∀ row b, row ∈ blob_matrix_ d' → b ∈ row →
    Blob2.indices b ≠ [] ∧
    ∀ m, m ∈ Blob2.indices b →
      ∃ j cc, m = Z.of_nat j ∧ comps !! j = Some cc ∧ cc ≠ (-1)%Z.
Proof.
  intros Hn Hrun row b Hrow Hb.
  destruct (process_blobs _ _ _ _ _ _ _ _ _ Hn Hrun) as (_ & Hrows & _).
  apply list_elem_of_lookup_1 in Hrow as [l Hrow].
  destruct (Hrows l row Hrow) as [Hf _]. rewrite Forall_forall in Hf.
  destruct (Hf b Hb) as (_ & Hmem & j0 & rest & cc & Hi & _).
  split; [by rewrite Hi|].
  intros m Hm. rewrite Forall_forall in Hmem.
  destruct (Hmem m Hm) as (j & cc' & -> & _ & Hd & Ha).
  exists j, cc'. split_and!; [done..|]. by eapply survives_not_sentinel.
Qed.

Lemma sentinel_never_in_a_blob_witness :
  ∃ d', (Z.of_nat (length comps_M) ≤ INT_MAX)%Z ∧
        process 25 fresh 2 2 labels_M comps_M cloud_B 1 = Some d' ∧
        ∀ row b, row ∈ blob_matrix_ d' → b ∈ row →
          Blob2.indices b ≠ [] ∧
          ∀ m, m ∈ Blob2.indices b →
            ∃ j cc, m = Z.of_nat j ∧ comps_M !! j = Some cc ∧ cc ≠ (-1)%Z.
Proof.
  eexists. split; [by vm_compute|]. split; [vm_compute; reflexivity|].
  apply (sentinel_never_in_a_blob 25 fresh 2 2 labels_M comps_M cloud_B 1);
    [by vm_compute|vm_compute; reflexivity].
Defined.

(** C3. After the numbering the matrix has its [NUM_PARTS] rows, one for
    each label, and row [l] holds one blob for each distinct surviving
    component first met under label [l], in the raster order of their first
    pixels: the first member of the [i]-th blob is the [i]-th such pixel.
    The [id] fields read row by row (label ascending, then position in the
    row) are [0, 1, .., total - 1], hence pairwise distinct, and in every
    row the [lid] fields are the positions [0, 1, ..]. *)
Theorem ids_cover_range_in_raster_order NUM_PARTS d rows cols labels comps cloud min_pts d' :
  (Z.of_nat (length comps) ≤ INT_MAX)%Z →
  process NUM_PARTS d rows cols labels comps cloud min_pts = Some d' →
  length (blob_matrix_ d') = NUM_PARTS ∧
  (∀ l, l < NUM_PARTS →
     ∃ row, blob_matrix_ d' !! l = Some row ∧
       length row =
         length (founders labels comps
                          (survives comps cloud min_pts (max_cluster_size_ d)) l
                          (length comps))) ∧
  Blob2.id <$> concat (blob_matrix_ d') =
    seqZ 0 (Z.of_nat (length (concat (blob_matrix_ d')))) ∧
  NoDup (Blob2.id <$> concat (blob_matrix_ d')) ∧
  ∀ l row, blob_matrix_ d' !! l = Some row →
    Blob2.lid <$> row = seqZ 0 (Z.of_nat (length row)) ∧
    first_member <$> row =
      (λ j, Some (Z.of_nat j)) <$>
        founders labels comps (survives comps cloud min_pts (max_cluster_size_ d)) l
                 (length comps).
Proof.
  intros Hn Hrun.
  destruct (process_blobs _ _ _ _ _ _ _ _ _ Hn Hrun)
    as (Hlen & Hrows & _ & _ & Hids & Hlids).
  split_and!; [done| |done| |].
  - intros l Hl.
    destruct (lookup_lt_is_Some_2 (blob_matrix_ d') l) as [row Hrow]; [lia|].
    exists row. split; [done|]. destruct (Hrows l row Hrow) as [_ He].
    apply (f_equal length) in He. by rewrite !length_fmap in He.
  - rewrite Hids. apply NoDup_seqZ.
  - intros l row Hrow. split.
    + by apply (Forall_lookup_1 _ _ _ _ Hlids Hrow).
    + by apply Hrows.
Qed.

Lemma ids_cover_range_in_raster_order_witness :
  ∃ d', (Z.of_nat (length comps_T) ≤ INT_MAX)%Z ∧
        process 25 detector_used 2 2 labels_T comps_T cloud_B 1 = Some d' ∧
        length (blob_matrix_ d') = 25 ∧
        (∀ l, l < 25 →
           ∃ row, blob_matrix_ d' !! l = Some row ∧
             length row =
               length (founders labels_T comps_T
                         (survives comps_T cloud_B 1 (max_cluster_size_ detector_used)) l
                         (length comps_T))) ∧
        Blob2.id <$> concat (blob_matrix_ d') =
          seqZ 0 (Z.of_nat (length (concat (blob_matrix_ d')))) ∧
        NoDup (Blob2.id <$> concat (blob_matrix_ d')) ∧
        ∀ l row, blob_matrix_ d' !! l = Some row →
          Blob2.lid <$> row = seqZ 0 (Z.of_nat (length row)) ∧
          first_member <$> row =
            (λ j, Some (Z.of_nat j)) <$>
              founders labels_T comps_T
                       (survives comps_T cloud_B 1 (max_cluster_size_ detector_used)) l
                       (length comps_T).
Proof.
  eexists. split; [by vm_compute|]. split; [vm_compute; reflexivity|].
  apply (ids_cover_range_in_raster_order 25 detector_used 2 2 labels_T comps_T cloud_B 1);
    [by vm_compute|vm_compute; reflexivity].
Defined.

(** On that frame row 0 holds the blob of component 0 and row 1 those of
    components 3 and 2, in the order in which the raster meets them. *)
Lemma frame_T_blobs :
  ∃ d' b0 b1 b2,
    process 25 detector_used 2 2 labels_T comps_T cloud_B 1 = Some d' ∧
    take 2 (blob_matrix_ d') = [[b0]; [b1; b2]] ∧
    (Blob2.indices b0, Blob2.id b0, Blob2.lid b0) = ([1], 0, 0)%Z ∧
    (Blob2.indices b1, Blob2.id b1, Blob2.lid b1) = ([0], 1, 0)%Z ∧
    (Blob2.indices b2, Blob2.id b2, Blob2.lid b2) = ([2; 3], 2, 1)%Z.
Proof. eexists _, _, _, _. split_and!; vm_compute; reflexivity. Qed.

(** C4 (amended). The centroid of every blob is the mean of the component
    of its first member: each coordinate is the sum accumulated for that
    component over the whole frame, in raster order, divided by the count
    accumulated for it (single precision, the count converted to [float]).
    It is the mean of the blob's member points where every component
    carries one label: there the members of the blob are the pixels of that
    component. *)
Theorem centroid_is_component_mean NUM_PARTS d rows cols labels comps cloud min_pts d' :
  (Z.of_nat (length comps) ≤ INT_MAX)%Z →
  process NUM_PARTS d rows cols labels comps cloud min_pts = Some d' →
  ∀ row b, row ∈ blob_matrix_ d' → b ∈ row →
    ∃ j0 rest cc,
      Blob2.indices b = Z.of_nat j0 :: rest ∧ comps !! j0 = Some cc ∧ cc ≠ (-1)%Z ∧
      let sum := sum_of comps cloud cc (length comps) in
      let count := count_of comps cc (length comps) in
      Vector4f.c0 (Blob2.mean b) = F32.div (float3.x sum) (F32.of_int count) ∧
      Vector4f.c1 (Blob2.mean b) = F32.div (float3.y sum) (F32.of_int count) ∧
      Vector4f.c2 (Blob2.mean b) = F32.div (float3.z sum) (F32.of_int count) ∧
      (label_homogeneous NUM_PARTS labels comps →
       Blob2.indices b = members comps cc (length comps)).
Proof.
  intros Hn Hrun row b Hrow Hb.
  destruct (process_blobs _ _ _ _ _ _ _ _ _ Hn Hrun) as (_ & Hrows & _).
  apply list_elem_of_lookup_1 in Hrow as [l Hrow].
  destruct (Hrows l row Hrow) as [Hf He]. rewrite Forall_forall in Hf.
  destruct (Hf b Hb) as (_ & Hmem & j0 & rest & cc & Hi & Hd & Hmean).
  exists j0, rest, cc. split; [done|]. split; [done|]. split.
  { rewrite Hi in Hmem. apply Forall_cons_1 in Hmem as [(j & cc' & Hj & _ & Hd' & Ha) _].
    apply Nat2Z.inj in Hj as <-. rewrite Hd in Hd'. injection Hd' as <-.
    by eapply survives_not_sentinel. }
  intros sum count. split_and!; [by rewrite Hmean..|].
  - intros Hhom.
    pose proof (process_gathers _ _ _ _ _ _ _ _ _ Hn Hrun Hhom) as Hgath.
    apply list_elem_of_lookup_1 in Hb as [i Hb].
    apply (f_equal (.!! i)) in He. rewrite !list_lookup_fmap, Hb in He. simpl in He.
    destruct (founders _ _ _ _ _ !! i) as [j0'|] eqn:Hfound; [|done].
    unfold first_member in He. rewrite Hi in He. simpl in He.
    assert (j0' = j0) as -> by (injection He; lia).
    by eapply Hgath.
Qed.

(** C4 as stated fails where a component straddles two labels: component 0
    has the pixels 0 and 3, at (0, 0, 1) and (7, 5, 5), under the labels 0
    and 1. Its blob, in row 0, has pixel 0 as its single member, and the
    centroid (3.5, 2.5, 3) of the component, which is not the mean of its
    member points. *)
Lemma straddling_blob_has_the_mean_of_its_component :
  ∃ d' b,
    process 25 fresh 2 2 labels_S comps_S cloud_B 1 = Some d' ∧
    blob_matrix_ d' !! 0 = Some [b] ∧
    Blob2.indices b = [0%Z] ∧ cloud_B !! 0 = Some (pt 0 0 1) ∧
    Vector4f.c0 (Blob2.mean b) = F32.div (F32.of_int 7) (F32.of_int 2) ∧
    Vector4f.c1 (Blob2.mean b) = F32.div (F32.of_int 5) (F32.of_int 2) ∧
    Vector4f.c2 (Blob2.mean b) = F32.of_int 3 ∧
    Vector4f.c0 (Blob2.mean b) ≠ PointXYZ.x (pt 0 0 1) ∧
    Vector4f.c1 (Blob2.mean b) ≠ PointXYZ.y (pt 0 0 1) ∧
    Vector4f.c2 (Blob2.mean b) ≠ PointXYZ.z (pt 0 0 1).
Proof.
  eexists _, _. split; [vm_compute; reflexivity|].
  split; [vm_compute; reflexivity|].
  split_and!; try (vm_compute; reflexivity); by vm_compute.
Qed.

Lemma centroid_is_component_mean_witness :
  ∃ d', (Z.of_nat (length comps_A) ≤ INT_MAX)%Z ∧
        process 25 detector_A 2 2 labels_A comps_A cloud_B 1 = Some d' ∧
        ∀ row b, row ∈ blob_matrix_ d' → b ∈ row →
          ∃ j0 rest cc,
            Blob2.indices b = Z.of_nat j0 :: rest ∧ comps_A !! j0 = Some cc ∧
            cc ≠ (-1)%Z ∧
            let sum := sum_of comps_A cloud_B cc (length comps_A) in
            let count := count_of comps_A cc (length comps_A) in
            Vector4f.c0 (Blob2.mean b) = F32.div (float3.x sum) (F32.of_int count) ∧
            Vector4f.c1 (Blob2.mean b) = F32.div (float3.y sum) (F32.of_int count) ∧
            Vector4f.c2 (Blob2.mean b) = F32.div (float3.z sum) (F32.of_int count) ∧
            (label_homogeneous 25 labels_A comps_A →
             Blob2.indices b = members comps_A cc (length comps_A)).
Proof.
  eexists. split; [by vm_compute|]. split; [vm_compute; reflexivity|].
  apply (centroid_is_component_mean 25 detector_A 2 2 labels_A comps_A cloud_B 1);
    [by vm_compute|vm_compute; reflexivity].
Defined.

(** C5 (amended). The member counts of all blobs add up to the number of
    pixels whose component survives the test of the second loop: it is not
    the sentinel, its accumulated z is different from zero, and its count is
    within the bounds. *)
Theorem members_are_the_surviving_pixels NUM_PARTS d rows cols labels comps cloud min_pts d' :
  (Z.of_nat (length comps) ≤ INT_MAX)%Z →
  process NUM_PARTS d rows cols labels comps cloud min_pts = Some d' →
  total_members (blob_matrix_ d') =
  length (alive_pixels comps (survives comps cloud min_pts (max_cluster_size_ d))
                       (length comps)).
Proof.
  intros Hn Hrun.
  by destruct (process_blobs _ _ _ _ _ _ _ _ _ Hn Hrun) as (_ & _ & Hcount & _).
Qed.

Lemma members_are_the_surviving_pixels_witness :
  ∃ d', (Z.of_nat (length comps_A) ≤ INT_MAX)%Z ∧
        process 25 detector_A 2 2 labels_A comps_A cloud_A 1 = Some d' ∧
        total_members (blob_matrix_ d') =
        length (alive_pixels comps_A
                  (survives comps_A cloud_A 1 (max_cluster_size_ detector_A))
                  (length comps_A)).
Proof.
  eexists. split; [by vm_compute|]. split; [vm_compute; reflexivity|].
  apply (members_are_the_surviving_pixels 25 detector_A 2 2 labels_A comps_A cloud_A 1);
    [by vm_compute|vm_compute; reflexivity].
Defined.

(** C5 as stated fails on scenario A: all four pixels belong to components
    other than the sentinel whose count, 2, is within [1, 10], yet the blobs
    have two members in all, because the z of component 0 adds up to zero. *)
Lemma zero_depth_component_is_not_counted :
  ∃ d', process 25 detector_A 2 2 labels_A comps_A cloud_A 1 = Some d' ∧
        total_members (blob_matrix_ d') = 2 ∧
        length (alive_pixels comps_A (count_within_bounds comps_A 1 10)
                             (length comps_A)) = 4.
Proof. eexists. split_and!; vm_compute; reflexivity. Qed.




(** C8 (amended). On a well-formed frame, one of at least one pixel whose
    buffer sizes fit an [int], of which no component survives the filter, in
    particular where every component id is the sentinel, [process] ends
    without error and leaves every row of the matrix empty, whatever the
    thresholds. *)
Theorem no_survivor_no_blob NUM_PARTS d rows cols labels comps cloud min_pts :
  well_formed rows cols labels comps cloud →
  Forall (λ cc, cc = (-1)%Z ∨
                survives comps cloud min_pts (max_cluster_size_ d) cc = false) comps →
  ∃ d', process NUM_PARTS d rows cols labels comps cloud min_pts = Some d' ∧
        blob_matrix_ d' = replicate NUM_PARTS [].
Proof.
  intros Hwf Hnone. apply process_without_survivors; [done|].
  eapply Forall_impl; [done|]. by intros cc [->|?].
Qed.

Lemma frame_none_well_formed : well_formed 2 2 labels_A comps_none cloud_B.
Proof.
  split; [simpl; lia|by vm_compute|done|done|done|].
  repeat constructor; by vm_compute.
Qed.

Lemma no_survivor_no_blob_witness :
  well_formed 2 2 labels_A comps_none cloud_B ∧
  Forall (λ cc, cc = (-1)%Z ∨
                survives comps_none cloud_B 1 (max_cluster_size_ fresh) cc = false)
         comps_none ∧
  ∃ d', process 25 fresh 2 2 labels_A comps_none cloud_B 1 = Some d' ∧
        blob_matrix_ d' = replicate 25 [].
Proof.
  assert (Forall (λ cc, cc = (-1)%Z ∨
                        survives comps_none cloud_B 1 (max_cluster_size_ fresh) cc = false)
                 comps_none) as Hnone by (repeat constructor; by left).
  split; [exact frame_none_well_formed|]. split; [exact Hnone|].
  exact (no_survivor_no_blob 25 fresh 2 2 labels_A comps_none cloud_B 1
           frame_none_well_formed Hnone).
Defined.

(** C8 as stated fails on the frame without pixels, where no component
    survives: the buffers have the sizes 0, 1 and 3, and lines 189-190
    subscript [means_storage_[3]] and [region_sizes_[1]], one past the
    end. *)
Lemma empty_frame_has_no_views :
  length ([] : list nat) = 0 * 0 ∧ length ([] : list Z) = 0 * 0 ∧
  length ([] : list PointXYZ.t) = 0 * 0 ∧
  Forall (λ cc, cc = (-1)%Z ∨
                survives [] [] 1 (max_cluster_size_ fresh) cc = false) [] ∧
  (∃ d, allocate_buffers 25 0 0 fresh = Some d ∧
        length (means_storage_ d) = 1 ∧ length (region_sizes_ d) = 1) ∧
  process 25 fresh 0 0 [] [] [] 1 = None.
Proof.
  split_and!; [done|done|done|constructor| |done].
  eexists. split; [vm_compute; reflexivity|done].
Qed.

(** C9 (amended). Where the assertions are compiled in, constructing the
    detector with an empty list of tree files stops at the failed assertion
    with nothing acquired; and whenever the assertion is what stops a
    construction, the list was empty and nothing was acquired. *)
Theorem empty_tree_list_fails_the_assertion NUM_PARTS loadTree rows cols heap :
  constructor NUM_PARTS false loadTree [] rows cols heap = (AssertionFailed, []) ∧
  ∀ NDEBUG tree_files,
    (constructor NUM_PARTS NDEBUG loadTree tree_files rows cols heap).1 = AssertionFailed →
    NDEBUG = false ∧ tree_files = [] ∧
    (constructor NUM_PARTS NDEBUG loadTree tree_files rows cols heap).2 = [].
Proof.
  split; [done|]. intros NDEBUG tree_files. unfold constructor.
  destruct NDEBUG.
  - simpl. destruct (load_trees loadTree tree_files) as [[] ?]; [|done].
    by destruct (allocate_buffers NUM_PARTS rows cols (initial heap)).
  - destruct tree_files as [|f fs]; [done|].
    rewrite bool_decide_eq_false_2 by done. cbn [negb andb].
    destruct (load_trees loadTree (f :: fs)) as [[] ?]; [|done].
    by destruct (allocate_buffers NUM_PARTS rows cols (initial heap)).
Qed.

(** C9 as stated fails: the check is an [assert], so a build with [NDEBUG]
    accepts the empty list and constructs a detector without trees; and
    where it does stop the construction, it is not a load error. *)
Lemma empty_tree_list_accepted_under_NDEBUG :
  (∃ d, constructor 25 true (λ _, None) [] 2 2 (λ _ _, F32.zero) =
        (Constructed d, [MultiTreeLiveProc 2 2; ColorMap; FrameBuffers 2 2])) ∧
  (constructor 25 false (λ _, None) [] 2 2 (λ _ _, F32.zero)).1 ≠ LoadTreeThrew.
Proof. split; [eexists; vm_compute; reflexivity|done]. Qed.

(** C10 (amended). The remap table is keyed by the component alone. Every
    surviving component gets one blob, in the row of the label of its first
    pixel: the blobs of row [l] are those of the founders of label [l], in
    their order. Every pixel of a surviving component is a member of the
    blob that stands, IN THE ROW OF THE PIXEL'S OWN LABEL, at the position
    the table holds for the component; that is the blob of the component
    when the labels agree. Hence every member of a blob of row [l] carries
    label [l], which is the blob's label. *)
Theorem members_follow_their_own_label NUM_PARTS d rows cols labels comps cloud min_pts d' :
  (Z.of_nat (length comps) ≤ INT_MAX)%Z →
  process NUM_PARTS d rows cols labels comps cloud min_pts = Some d' →
  let alive := survives comps cloud min_pts (max_cluster_size_ d) in
  (∀ l row, blob_matrix_ d' !! l = Some row →
     first_member <$> row =
       (λ j, Some (Z.of_nat j)) <$> founders labels comps alive l (length comps) ∧
     ∀ b, b ∈ row →
       Blob2.label b = l ∧
       ∀ m, m ∈ Blob2.indices b → ∃ j, m = Z.of_nat j ∧ labels !! j = Some l) ∧
  (∀ j l cc, labels !! j = Some l → comps !! j = Some cc → alive cc = true →
     ∃ c i l0 j0 row b,
       cc = Z.of_nat c ∧ remap_ d' !! c = Some (Z.of_nat i) ∧
       founders labels comps alive l0 (length comps) !! i = Some j0 ∧
       comps !! j0 = Some cc ∧
       blob_matrix_ d' !! l = Some row ∧ row !! i = Some b ∧
       Z.of_nat j ∈ Blob2.indices b).
Proof.
  intros Hn Hrun alive.
  destruct (process_blobs _ _ _ _ _ _ _ _ _ Hn Hrun) as (_ & Hrows & _ & Hplaced & _).
  split.
  - intros l row Hrow. destruct (Hrows l row Hrow) as [Hf He]. split; [done|].
    intros b Hb. rewrite Forall_forall in Hf.
    destruct (Hf b Hb) as (Hl & Hmem & _). split; [done|].
    intros m Hm. rewrite Forall_forall in Hmem.
    destruct (Hmem m Hm) as (j & cc & -> & Hlj & _). eauto.
  - intros j l cc Hl Hd Ha.
    destruct (Hplaced j l cc Hl Hd Ha) as (c & i & row & b & l0 & j0 & H).
    exists c, i, l0, j0, row, b. tauto.
Qed.

Lemma members_follow_their_own_label_witness :
  ∃ d', (Z.of_nat (length comps_S) ≤ INT_MAX)%Z ∧
    process 25 fresh 2 2 labels_S comps_S cloud_B 1 = Some d' ∧
    let alive := survives comps_S cloud_B 1 (max_cluster_size_ fresh) in
    (∀ l row, blob_matrix_ d' !! l = Some row →
       first_member <$> row =
         (λ j, Some (Z.of_nat j)) <$> founders labels_S comps_S alive l (length comps_S) ∧
       ∀ b, b ∈ row →
         Blob2.label b = l ∧
         ∀ m, m ∈ Blob2.indices b → ∃ j, m = Z.of_nat j ∧ labels_S !! j = Some l) ∧
    (∀ j l cc, labels_S !! j = Some l → comps_S !! j = Some cc → alive cc = true →
       ∃ c i l0 j0 row b,
         cc = Z.of_nat c ∧ remap_ d' !! c = Some (Z.of_nat i) ∧
         founders labels_S comps_S alive l0 (length comps_S) !! i = Some j0 ∧
         comps_S !! j0 = Some cc ∧
         blob_matrix_ d' !! l = Some row ∧ row !! i = Some b ∧
         Z.of_nat j ∈ Blob2.indices b).
Proof.
  eexists. split; [by vm_compute|]. split; [vm_compute; reflexivity|].
  apply (members_follow_their_own_label 25 fresh 2 2 labels_S comps_S cloud_B 1);
    [by vm_compute|vm_compute; reflexivity].
Defined.

(** C10 as stated fails: pixel 3 belongs to component 0, whose blob was
    created in row 0 at pixel 0, but it carries label 1 and is appended to
    the blob at the same position of row 1, the blob of component 1. It is
    not a member of the blob of its component, and it carries the label of
    the blob it is in. Where row 1 is still empty at that point, the access
    is out of range. *)
Lemma straddling_pixel_joins_another_blob :
  ∃ d' b0 b1,
    process 25 fresh 2 2 labels_S comps_S cloud_B 1 = Some d' ∧
    comps_S !! 0 = Some 0%Z ∧ comps_S !! 3 = Some 0%Z ∧
    labels_S !! 0 = Some 0 ∧ labels_S !! 3 = Some 1 ∧
    blob_matrix_ d' !! 0 = Some [b0] ∧ blob_matrix_ d' !! 1 = Some [b1] ∧
    Blob2.indices b0 = [0%Z] ∧ Blob2.indices b1 = [1; 2; 3]%Z ∧
    Blob2.label b1 = 1 ∧
    process 25 fresh 2 2 labels_S [0; 0; 1; 0]%Z cloud_B 1 = None.
Proof. eexists _, _, _. split_and!; vm_compute; reflexivity. Qed.

Lemma frame_A_well_formed : well_formed 2 2 labels_A comps_A cloud_A.
Proof.
  split; [simpl; lia|by vm_compute|done|done|done|].
  repeat constructor; by vm_compute.
Qed.

Lemma frame_A_homogeneous NUM_PARTS : 2 ≤ NUM_PARTS → label_homogeneous NUM_PARTS labels_A comps_A.
Proof.
  intros Hparts [|[|[|[|j]]]] cc l Hc Hne Hl; simplify_eq/=; (split; [lia|]);
    intros [|[|[|[|j']]]] Hc'; by simplify_eq/=.
Qed.

Lemma concat_replicate_nil {A : Type} n : concat (replicate n (@nil A)) = [].
Proof. induction n as [|n IH]; simpl; [done|exact IH]. Qed.

(** C6 (amended). On scenario A, for any detector with the upper bound 10
    and whatever the number of body parts (at least the two used), row [L0]
    is empty, because the z of component 0 adds up to zero and the component
    is discarded; row [L1] holds one blob with centroid (6, 5, 5), members 2
    and 3 and [id] 0, whose coefficient 3 is what the storage held; every
    other row is empty. *)
Theorem scenario_A_blobs NUM_PARTS d :
  2 ≤ NUM_PARTS → max_cluster_size_ d = 10%Z →
  ∃ d', process NUM_PARTS d 2 2 labels_A comps_A cloud_A 1 = Some d' ∧
        blob_matrix_ d' =
          [] ::
          [Blob2.mk 1 (Vector4f.mk (F32.of_int 6) (F32.of_int 5) (F32.of_int 5)
                                   (remains_ d 1 0))
                    [2; 3]%Z 0 0] ::
          replicate (NUM_PARTS - 2) [].
Proof.
  intros Hparts Hmax.
  destruct (process_runs NUM_PARTS d 2 2 labels_A comps_A cloud_A 1
              frame_A_well_formed (frame_A_homogeneous _ Hparts)) as (d' & Hrun & Hgath).
  exists d'. split; [done|].
  destruct (process_blobs NUM_PARTS d 2 2 labels_A comps_A cloud_A 1 d')
    as (Hlen & Hrows & _ & _ & Hids & Hlids); [by vm_compute|done|].
  pose proof (process_keeps_remains NUM_PARTS d 2 2 labels_A comps_A cloud_A 1 d')
    as Hkept.
  rewrite Hmax in *.
  set (alive := survives comps_A cloud_A 1 10) in *.
  assert (founders labels_A comps_A alive 0 (length comps_A) = []) as F0
    by (vm_compute; reflexivity).
  assert (founders labels_A comps_A alive 1 (length comps_A) = [2]) as F1
    by (vm_compute; reflexivity).
  assert (∀ l, founders labels_A comps_A alive (S (S l)) (length comps_A) = []) as Fl.
  { intros l.
    destruct (founders labels_A comps_A alive (S (S l)) (length comps_A))
      as [|j js] eqn:E; [done|].
    assert (founders labels_A comps_A alive (S (S l)) (length comps_A) !! 0 = Some j)
      as (_ & Hl & _)%founders_lookup by (by rewrite E).
    by destruct j as [|[|[|[|j]]]]. }
  destruct (blob_matrix_ d') as [|r0 [|r1 rest]]; simpl in Hlen; [lia..|].
  destruct (Hrows 0 r0 eq_refl) as [_ H0]. rewrite F0 in H0. apply fmap_nil_inv in H0 as ->.
  destruct (Hrows 1 r1 eq_refl) as [Hf1 H1]. rewrite F1 in H1.
  destruct r1 as [|b [|b' r1]]; [done| |done]. injection H1 as H.
  assert (rest = replicate (NUM_PARTS - 2) []) as ->.
  { symmetry. apply replicate_as_Forall. split; [lia|].
    apply Forall_lookup. intros i row Hrow.
    destruct (Hrows (S (S i)) row Hrow) as [_ He]. rewrite Fl in He.
    by apply fmap_nil_inv in He as ->. }
  change (concat ([] :: [b] :: replicate (NUM_PARTS - 2) []))
    with (b :: concat (replicate (NUM_PARTS - 2) (@nil Blob2.t))) in Hids.
  rewrite concat_replicate_nil in Hids. injection Hids as Hid.
  apply Forall_cons_1 in Hlids as [_ Hlids]. apply Forall_cons_1 in Hlids as [Hlid _].
  apply Forall_cons_1 in Hf1 as [(Hlabel & _ & j0 & more & cc & Hi & Hd & Hmean) _].
  pose proof (Hgath 1 [b] 0 b 2 1%Z eq_refl eq_refl) as Hmem.
  rewrite F1 in Hmem. specialize (Hmem eq_refl eq_refl).
  pose proof (Hkept ltac:(by vm_compute) Hrun 1 [b] 0 b eq_refl eq_refl) as Hc3.
  unfold first_member in H. rewrite Hi in H. simpl in H.
  assert (j0 = 2) as -> by (injection H; lia).
  simpl in Hd. injection Hd as <-. vm_compute in Hlid. injection Hlid as Hlid.
  clear Hi H Hrows Hgath Hkept.
  destruct b as [lb [m0 m1 m2 m3] ib idb lidb]. simpl in *. subst.
  unfold mean_of, centroid in Hmean. simpl in Hmean.
  injection Hmean as -> -> ->.
  repeat f_equal; by vm_compute.
Qed.

Lemma scenario_A_blobs_witness :
  2 ≤ 25 ∧ max_cluster_size_ detector_A = 10%Z ∧
  ∃ d', process 25 detector_A 2 2 labels_A comps_A cloud_A 1 = Some d' ∧
        blob_matrix_ d' =
          [] ::
          [Blob2.mk 1 (Vector4f.mk (F32.of_int 6) (F32.of_int 5) (F32.of_int 5)
                                   (remains_ detector_A 1 0))
                    [2; 3]%Z 0 0] ::
          replicate (25 - 2) [].
Proof.
  assert (2 ≤ 25) as Hparts by lia.
  split; [exact Hparts|]. split; [reflexivity|].
  exact (scenario_A_blobs 25 detector_A Hparts eq_refl).
Defined.

(** C6 as stated fails: row [L0] of scenario A holds no blob. *)
Lemma scenario_A_has_no_blob_for_L0 :
  ∃ d', process 25 detector_A 2 2 labels_A comps_A cloud_A 1 = Some d' ∧
        blob_matrix_ d' !! 0 = Some [].
Proof. eexists. split; vm_compute; reflexivity. Qed.

(** * Further properties *)

(** ** Loops that fail *)

(** A loop that ends has run its body at every index. *)
Lemma for_each_ran {S : Type} (body : nat → S → option S) n s0 s :
  for_each body (seq 0 n) s0 = Some s →
  ∀ k, k < n → ∃ a b, body k a = Some b.
Proof.
  revert s. induction n as [|n IH]; intros s Hrun k Hk; [lia|].
  rewrite for_each_seq_S in Hrun.
  destruct (for_each body (seq 0 n) s0) as [a|] eqn:Ha; [|done]. simpl in Hrun.
  destruct (decide (k = n)) as [->|Hne]; [by eauto|].
  apply (IH a); [done|lia].
Qed.

(** ** allocate_buffers *)

(** X1. Where the sizes fit an [int], the largest being the
    [(cols * rows + 1) * 3] floats of line 139, [allocate_buffers] leaves
    every host buffer with the size of the frame, the two accumulator arrays
    one slot longer for the component [-1], and a blob matrix of
    [NUM_PARTS] empty rows; the settings of the detector are kept. *)
Theorem allocate_buffers_sizes NUM_PARTS rows cols d :
  fits rows cols →
  ∃ d', allocate_buffers NUM_PARTS rows cols d = Some d' ∧
    length (lmap_host_ d') = rows * cols ∧
    length (dst_labels_ d') = rows * cols ∧
    length (remap_ d') = rows * cols ∧
    length (region_sizes_ d') = rows * cols + 1 ∧
    length (means_storage_ d') = rows * cols + 1 ∧
    blob_matrix_ d' = replicate NUM_PARTS [] ∧
    max_cluster_size_ d' = max_cluster_size_ d ∧
    cluster_tolerance_ d' = cluster_tolerance_ d.
Proof.
  intros Hfits. eexists. split; [by apply allocate_buffers_fits|]. simpl.
  rewrite !length_resize, fmap_const_replicate, length_resize. done.
Qed.

Lemma allocate_buffers_sizes_witness :
  fits 3 2 ∧
  ∃ d', allocate_buffers 25 3 2 detector_used = Some d' ∧
    length (lmap_host_ d') = 3 * 2 ∧
    length (dst_labels_ d') = 3 * 2 ∧
    length (remap_ d') = 3 * 2 ∧
    length (region_sizes_ d') = 3 * 2 + 1 ∧
    length (means_storage_ d') = 3 * 2 + 1 ∧
    blob_matrix_ d' = replicate 25 [] ∧
    max_cluster_size_ d' = max_cluster_size_ detector_used ∧
    cluster_tolerance_ d' = cluster_tolerance_ detector_used.
Proof.
  assert (fits 3 2) as Hfits by (by vm_compute).
  split; [exact Hfits|]. exact (allocate_buffers_sizes 25 3 2 detector_used Hfits).
Defined.

(** X2. Where the sizes fit, [allocate_buffers] may be called again with
    the same dimensions: the second call changes nothing. With other
    dimensions that fit, the buffers follow the last call. *)
Theorem allocate_buffers_again NUM_PARTS rows cols rows' cols' d :
  fits rows cols → fits rows' cols' →
  ∃ d1 d2,
    allocate_buffers NUM_PARTS rows cols d = Some d1 ∧
    allocate_buffers NUM_PARTS rows cols d1 = Some d1 ∧
    allocate_buffers NUM_PARTS rows' cols' d1 = Some d2 ∧
    length (remap_ d2) = rows' * cols' ∧
    length (region_sizes_ d2) = rows' * cols' + 1 ∧
    length (means_storage_ d2) = rows' * cols' + 1.
Proof.
  intros Hfits Hfits'. eexists _, _.
  split; [by apply allocate_buffers_fits|].
  split; [|split; [by apply allocate_buffers_fits|]].
  - rewrite allocate_buffers_fits by done. simpl. rewrite !resize_idemp.
    do 2 f_equal. by rewrite !fmap_const_replicate, !length_resize.
  - simpl. by rewrite !length_resize.
Qed.

Lemma allocate_buffers_again_witness :
  fits 2 2 ∧ fits 3 2 ∧
  ∃ d1 d2,
    allocate_buffers 25 2 2 detector_used = Some d1 ∧
    allocate_buffers 25 2 2 d1 = Some d1 ∧
    allocate_buffers 25 3 2 d1 = Some d2 ∧
    length (remap_ d2) = 3 * 2 ∧
    length (region_sizes_ d2) = 3 * 2 + 1 ∧
    length (means_storage_ d2) = 3 * 2 + 1.
Proof.
  assert (fits 2 2) as Hfits by (by vm_compute).
  assert (fits 3 2) as Hfits' by (by vm_compute).
  split; [exact Hfits|]. split; [exact Hfits'|].
  exact (allocate_buffers_again 25 2 2 3 2 detector_used Hfits Hfits').
Defined.

(** ** The constructor *)

Lemma load_trees_all loadTree tree_files heights :
  Forall2 (λ f h, loadTree f = Some h) tree_files heights →
  load_trees loadTree tree_files = (true, CUDATree <$> heights).
Proof.
  induction 1 as [|f h fs hs Hf _ IH]; simpl; [done|]. by rewrite Hf, IH.
Qed.

Lemma load_trees_stop loadTree loaded heights f rest :
  Forall2 (λ f h, loadTree f = Some h) loaded heights →
  loadTree f = None →
  load_trees loadTree (loaded ++ f :: rest) = (false, CUDATree <$> heights).
Proof.
  intros Hloaded Hf.
  induction Hloaded as [|f' h fs hs Hf' _ IH]; simpl; [by rewrite Hf|].
  by rewrite Hf', IH.
Qed.

(** X3. Given a list of tree files that is not empty and all load, and
    dimensions whose buffer sizes fit an [int], the constructor succeeds in
    either build: it acquires the forest evaluator, then one device tree
    for each file in the order of the list, then the colour table and the
    frame buffers; the detector it leaves has [max_cluster_size_] 25000,
    buffers of the size of the frame and an empty blob matrix. *)
Theorem constructor_loads_every_tree
    NUM_PARTS NDEBUG loadTree tree_files heights rows cols heap :
  tree_files ≠ [] →
  Forall2 (λ f h, loadTree f = Some h) tree_files heights →
  fits rows cols →
  ∃ d,
    constructor NUM_PARTS NDEBUG loadTree tree_files rows cols heap =
      (Constructed d,
       MultiTreeLiveProc rows cols :: (CUDATree <$> heights) ++
         [ColorMap; FrameBuffers rows cols]) ∧
    length (CUDATree <$> heights) = length tree_files ∧
    max_cluster_size_ d = 25000%Z ∧
    length (remap_ d) = rows * cols ∧
    length (region_sizes_ d) = rows * cols + 1 ∧
    length (means_storage_ d) = rows * cols + 1 ∧
    blob_matrix_ d = replicate NUM_PARTS [].
Proof.
  intros Hne Hall Hfits. eexists. split_and!.
  - unfold constructor. rewrite bool_decide_eq_false_2, andb_false_r by done.
    rewrite (load_trees_all _ _ _ Hall).
    by rewrite (allocate_buffers_fits _ _ _ _ Hfits).
  - rewrite length_fmap. symmetry. by eapply Forall2_length.
  - done.
  - simpl. by rewrite length_resize.
  - simpl. by rewrite length_resize.
  - simpl. by rewrite length_resize.
  - simpl. by rewrite fmap_const_replicate, length_resize.
Qed.

Lemma constructor_loads_every_tree_witness :
  ["tree_20.txt"; "tree_18.txt"] ≠ [] ∧
  Forall2 (λ f h, loadTree_two f = Some h) ["tree_20.txt"; "tree_18.txt"] [20; 18]%Z ∧
  fits 2 2 ∧
  ∃ d,
    constructor 25 true loadTree_two ["tree_20.txt"; "tree_18.txt"] 2 2
                (λ _ _, F32.of_int 7) =
      (Constructed d,
       MultiTreeLiveProc 2 2 :: (CUDATree <$> [20; 18]%Z) ++
         [ColorMap; FrameBuffers 2 2]) ∧
    length (CUDATree <$> [20; 18]%Z) = length ["tree_20.txt"; "tree_18.txt"] ∧
    max_cluster_size_ d = 25000%Z ∧
    length (remap_ d) = 2 * 2 ∧
    length (region_sizes_ d) = 2 * 2 + 1 ∧
    length (means_storage_ d) = 2 * 2 + 1 ∧
    blob_matrix_ d = replicate 25 [].
Proof.
  assert (fits 2 2) as Hfits by (by vm_compute).
  assert (["tree_20.txt"; "tree_18.txt"] ≠ []) as Hne by done.
  assert (Forall2 (λ f h, loadTree_two f = Some h)
            ["tree_20.txt"; "tree_18.txt"] [20; 18]%Z) as Hall
    by (repeat constructor).
  split; [exact Hne|]. split; [exact Hall|]. split; [exact Hfits|].
  exact (constructor_loads_every_tree 25 true loadTree_two _ _ 2 2
           (λ _ _, F32.of_int 7) Hne Hall Hfits).
Defined.

(** X4. A tree file that fails to load stops the construction with the
    exception of [loadTree]; by then the forest evaluator and the device
    trees of the files before it have been acquired, the files after it have
    not been read, and neither the colour table nor the frame buffers have
    been allocated. *)
Theorem constructor_stops_at_bad_tree
    NUM_PARTS NDEBUG loadTree loaded heights f rest rows cols heap :
  Forall2 (λ f h, loadTree f = Some h) loaded heights →
  loadTree f = None →
  constructor NUM_PARTS NDEBUG loadTree (loaded ++ f :: rest) rows cols heap =
    (LoadTreeThrew, MultiTreeLiveProc rows cols :: (CUDATree <$> heights)).
Proof.
  intros Hloaded Hf. unfold constructor.
  rewrite bool_decide_eq_false_2, andb_false_r by (by destruct loaded).
  by rewrite (load_trees_stop _ _ _ _ _ Hloaded Hf).
Qed.

Lemma constructor_stops_at_bad_tree_witness :
  Forall2 (λ f h, loadTree_two f = Some h) ["tree_20.txt"] [20%Z] ∧
  loadTree_two "missing.txt" = None ∧
  constructor 25 false loadTree_two (["tree_20.txt"] ++ "missing.txt" :: ["tree_18.txt"]) 2 2
              (λ _ _, F32.zero) =
    (LoadTreeThrew, MultiTreeLiveProc 2 2 :: (CUDATree <$> [20%Z])).
Proof.
  assert (Forall2 (λ f h, loadTree_two f = Some h) ["tree_20.txt"] [20%Z]) as Hloaded
    by (repeat constructor).
  assert (loadTree_two "missing.txt" = None) as Hf by done.
  split; [exact Hloaded|]. split; [exact Hf|].
  exact (constructor_stops_at_bad_tree 25 false loadTree_two _ _ _ _ 2 2 _ Hloaded Hf).
Defined.

(** ** The colour table *)

Lemma color_subscript k :
  (3 * Z.of_nat k + 3 ≤ INT_MAX)%Z →
  subscript (to_int (to_int (Z.of_nat k * 3) + 2)) = Some (3 * k + 2) ∧
  subscript (to_int (to_int (Z.of_nat k * 3) + 1)) = Some (3 * k + 1) ∧
  subscript (to_int (to_int (Z.of_nat k * 3) + 0)) = Some (3 * k).
Proof.
  intros Hk. unfold INT_MAX in *.
  rewrite (to_int_small (Z.of_nat k * 3)) by (unfold INT_MAX; lia).
  rewrite !to_int_small by (unfold INT_MAX; lia).
  replace (Z.of_nat k * 3 + 2)%Z with (Z.of_nat (3 * k + 2)) by lia.
  replace (Z.of_nat k * 3 + 1)%Z with (Z.of_nat (3 * k + 1)) by lia.
  replace (Z.of_nat k * 3 + 0)%Z with (Z.of_nat (3 * k)) by lia.
  by rewrite !subscript_of_nat.
Qed.

Lemma color_entry_reads LUT k rgba rgba' :
  (3 * Z.of_nat k + 3 ≤ INT_MAX)%Z →
  color_entry LUT k rgba = Some rgba' →
  ∃ r g b, LUT !! (3 * k) = Some b ∧ LUT !! (3 * k + 1) = Some g ∧
           LUT !! (3 * k + 2) = Some r ∧ k < length rgba ∧
           rgba' = <[k := RGB.mk r g b 255]> rgba.
Proof.
  intros Hk. unfold color_entry.
  destruct (rgba !! k) as [c|] eqn:Hc; [|done]. cbn [mbind option_bind].
  destruct (color_subscript k Hk) as (-> & -> & ->). cbn [mbind option_bind].
  destruct (LUT !! (3 * k + 2)) as [r|] eqn:Hr; [|done]. cbn [mbind option_bind].
  destruct (LUT !! (3 * k + 1)) as [g|] eqn:Hg; [|done]. cbn [mbind option_bind].
  destruct (LUT !! (3 * k)) as [b|] eqn:Hb; [|done]. cbn [mbind option_bind].
  intros [= <-]. exists r, g, b.
  split_and!; [done..| |done]. by eapply lookup_lt_Some.
Qed.

Lemma color_entry_runs LUT k rgba :
  (3 * Z.of_nat k + 3 ≤ INT_MAX)%Z → k < length rgba → 3 * k + 3 ≤ length LUT →
  is_Some (color_entry LUT k rgba).
Proof.
  intros Hk Hlen Hlut. unfold color_entry.
  destruct (lookup_lt_is_Some_2 rgba k Hlen) as [c ->]. cbn [mbind option_bind].
  destruct (color_subscript k Hk) as (-> & -> & ->). cbn [mbind option_bind].
  destruct (lookup_lt_is_Some_2 LUT (3 * k + 2)) as [r ->]; [lia|].
  destruct (lookup_lt_is_Some_2 LUT (3 * k + 1)) as [g ->]; [lia|].
  destruct (lookup_lt_is_Some_2 LUT (3 * k)) as [b ->]; [lia|].
  done.
Qed.

(** X5. Where [LUT_COLOR_LABEL] holds three bytes for each of the
    [LUT_COLOR_LABEL_LENGTH] labels, the loop of the constructor yields a
    table of that many colours, all opaque, whose bytes read blue, green,
    red give back the table: the red and blue channels are swapped on the
    way. A shorter table is read past its end. *)
Theorem label_colors_swap_channels LUT LEN init :
  (3 * Z.of_nat LEN ≤ INT_MAX)%Z →
  (3 * LEN ≤ length LUT →
   ∃ table, label_colors LUT LEN init = Some table ∧
            length table = LEN ∧
            Forall (λ c, RGB.a c = 255%Z) table ∧
            concat (bgr <$> table) = take (3 * LEN) LUT) ∧
  (length LUT < 3 * LEN → label_colors LUT LEN init = None).
Proof.
  intros Hmax. split.
  - intros Hlut.
    destruct (for_each_total
                (λ k rgba, length rgba = LEN ∧
                           Forall (λ c, RGB.a c = 255%Z) (take k rgba) ∧
                           concat (bgr <$> take k rgba) = take (3 * k) LUT)
                (color_entry LUT) LEN (replicate LEN init))
      as (table & Hrun & Hlen & Ha & Hbytes).
    { split_and!; [apply length_replicate|by rewrite take_0|].
      by rewrite take_0. }
    { intros k rgba Hk (Hlen & Ha & Hbytes).
      destruct (color_entry_runs LUT k rgba) as [rgba' Hstep]; [lia..|].
      exists rgba'. split; [done|].
      destruct (color_entry_reads LUT k rgba rgba') as (r & g & b & Hb & Hg & Hr & _ & ->);
        [lia|done|].
      assert (take (S k) (<[k:=RGB.mk r g b 255]> rgba) =
              take k rgba ++ [RGB.mk r g b 255]) as ->.
      { assert (<[k:=RGB.mk r g b 255]> rgba !! k = Some (RGB.mk r g b 255)) as Hk'
          by (apply list_lookup_insert_eq; lia).
        rewrite (take_S_r _ _ _ Hk'). by rewrite take_insert_ge by lia. }
      split_and!.
      - by rewrite length_insert.
      - apply Forall_app. split; [done|]. by apply Forall_singleton.
      - assert (take (3 * S k) LUT = take (3 * k) LUT ++ [b; g; r]) as ->.
        { replace (3 * S k) with (S (S (S (3 * k)))) by lia.
          replace (3 * k + 2) with (S (S (3 * k))) in Hr by lia.
          replace (3 * k + 1) with (S (3 * k)) in Hg by lia.
          rewrite (take_S_r _ _ _ Hr), (take_S_r _ _ _ Hg), (take_S_r _ _ _ Hb).
          by rewrite <- !app_assoc. }
        by rewrite fmap_app, concat_app, Hbytes. }
    exists table. rewrite take_ge in Ha, Hbytes by lia. done.
  - intros Hshort.
    destruct (label_colors LUT LEN init) as [table|] eqn:Hrun; [|done]. exfalso.
    destruct (for_each_ran _ _ _ _ Hrun (LEN - 1)) as (rgba & rgba' & Hstep); [lia|].
    destruct (color_entry_reads LUT (LEN - 1) rgba rgba')
      as (r & g & b & _ & _ & Hr & _); [lia|done|].
    apply lookup_lt_Some in Hr. lia.
Qed.

Lemma label_colors_swap_channels_witness :
  (3 * Z.of_nat 2 ≤ INT_MAX)%Z ∧
  (3 * 2 ≤ length LUT_two →
   ∃ table, label_colors LUT_two 2 (RGB.mk 0 0 0 0) = Some table ∧
            length table = 2 ∧
            Forall (λ c, RGB.a c = 255%Z) table ∧
            concat (bgr <$> table) = take (3 * 2) LUT_two) ∧
  (length LUT_two < 3 * 2 → label_colors LUT_two 2 (RGB.mk 0 0 0 0) = None).
Proof.
  assert (3 * Z.of_nat 2 ≤ INT_MAX)%Z as Hmax by (by vm_compute).
  split; [exact Hmax|].
  exact (label_colors_swap_channels LUT_two 2 (RGB.mk 0 0 0 0) Hmax).
Defined.

(** ** What process leaves in the detector *)

Lemma process_Some NUM_PARTS d rows cols labels comps cloud min_pts d' :
  process NUM_PARTS d rows cols labels comps cloud min_pts = Some d' →
  ∃ means0 rsizes means remap bm,
    for_each (accumulate cloud comps) (seq 0 (length comps))
             (replicate (rows * cols + 1) float3.zero, replicate (rows * cols + 1) 0%Z)
      = Some (means0, rsizes) ∧
    invalidate means0 = Some means ∧
    for_each (materialize (remains_ d) labels comps means rsizes min_pts
                          (max_cluster_size_ d))
             (seq 0 (length comps))
             (replicate (rows * cols) (-1)%Z, replicate NUM_PARTS [])
      = Some (remap, bm) ∧
    d' = mkDetector (max_cluster_size_ d) (cluster_tolerance_ d) labels comps
                    rsizes remap means (number_blobs 0 bm).2 (remains_ d).
Proof.
  intros Hrun. destruct (process_fits _ _ _ _ _ _ _ _ _ Hrun) as [Hfits Hpix].
  revert Hrun. rewrite process_unfold by done.
  destruct (for_each (accumulate cloud comps) _ _) as [[means0 rsizes]|] eqn:H1; [|done].
  simpl. destruct (invalidate means0) as [means|] eqn:H2; [|done]. simpl.
  destruct (for_each (materialize _ _ _ _ _ _ _) _ _) as [[remap bm]|] eqn:H3; [|done].
  simpl. intros [= <-]. by exists means0, rsizes, means, remap, bm.
Qed.

(** X6. After [process] the detector holds the two grids it was given,
    buffers of the size of the frame (one more slot in the accumulators), a
    matrix of [NUM_PARTS] rows, and its settings unchanged. *)
Theorem process_leaves_sized_buffers NUM_PARTS d rows cols labels comps cloud min_pts d' :
  (Z.of_nat (length comps) ≤ INT_MAX)%Z →
  process NUM_PARTS d rows cols labels comps cloud min_pts = Some d' →
  lmap_host_ d' = labels ∧ dst_labels_ d' = comps ∧
  length (remap_ d') = rows * cols ∧
  length (region_sizes_ d') = rows * cols + 1 ∧
  length (means_storage_ d') = rows * cols + 1 ∧
  length (blob_matrix_ d') = NUM_PARTS ∧
  max_cluster_size_ d' = max_cluster_size_ d ∧
  cluster_tolerance_ d' = cluster_tolerance_ d.
Proof.
  intros Hn Hrun.
  destruct (process_facts _ _ _ _ _ _ _ _ _ Hn Hrun)
    as (means0 & bm & (Hl1 & Hl2 & _) & Hinv & (Hr & _) & _).
  destruct (process_blobs _ _ _ _ _ _ _ _ _ Hn Hrun) as (Hrows & _).
  apply invalidate_Some in Hinv as (m & _ & Hmeans).
  destruct (process_Some _ _ _ _ _ _ _ _ _ Hrun) as (? & ? & ? & ? & ? & _ & _ & _ & ->).
  simpl in *. split_and!; try done. subst. by rewrite length_insert.
Qed.

Lemma process_leaves_sized_buffers_witness :
  ∃ d', (Z.of_nat (length comps_M) ≤ INT_MAX)%Z ∧
        process 25 detector_used 2 2 labels_M comps_M cloud_B 1 = Some d' ∧
        lmap_host_ d' = labels_M ∧ dst_labels_ d' = comps_M ∧
        length (remap_ d') = 2 * 2 ∧
        length (region_sizes_ d') = 2 * 2 + 1 ∧
        length (means_storage_ d') = 2 * 2 + 1 ∧
        length (blob_matrix_ d') = 25 ∧
        max_cluster_size_ d' = max_cluster_size_ detector_used ∧
        cluster_tolerance_ d' = cluster_tolerance_ detector_used.
Proof.
  eexists. split; [by vm_compute|]. split; [vm_compute; reflexivity|].
  apply (process_leaves_sized_buffers 25 detector_used 2 2 labels_M comps_M cloud_B 1);
    [by vm_compute|vm_compute; reflexivity].
Defined.

(** X7. After [process], slot [cc + 1] of [region_sizes_] is the number of
    pixels of component [cc], the sentinel included, and slot [cc + 1] of
    the means storage is the sum of their points in raster order; for the
    sentinel the x and y are summed as well and the z is set to [+0]. *)
Theorem process_leaves_counts_and_sums NUM_PARTS d rows cols labels comps cloud min_pts d' :
  (Z.of_nat (length comps) ≤ INT_MAX)%Z →
  process NUM_PARTS d rows cols labels comps cloud min_pts = Some d' →
  ∀ i, i < rows * cols + 1 →
    let cc := (Z.of_nat i - 1)%Z in
    let sum := sum_of comps cloud cc (length comps) in
    region_sizes_ d' !! i = Some (count_of comps cc (length comps)) ∧
    means_storage_ d' !! i =
      Some (if decide (i = 0) then float3.mk (float3.x sum) (float3.y sum) F32.zero
            else sum).
Proof.
  intros Hn Hrun i Hi cc sum.
  destruct (process_facts _ _ _ _ _ _ _ _ _ Hn Hrun)
    as (means0 & bm & (Hl1 & Hl2 & Hs & _) & Hinv & _).
  apply invalidate_Some in Hinv as (m & Hm & ->). simpl in *.
  destruct (Hs i Hi) as [Hsum Hcount]. split; [done|].
  destruct (decide (i = 0)) as [->|Hne].
  - rewrite list_lookup_insert_eq by lia.
    rewrite Hm in Hsum. by injection Hsum as ->.
  - by rewrite list_lookup_insert_ne.
Qed.

Lemma process_leaves_counts_and_sums_witness :
  ∃ d', (Z.of_nat (length comps_M) ≤ INT_MAX)%Z ∧
        process 25 fresh 2 2 labels_M comps_M cloud_B 1 = Some d' ∧
        ∀ i, i < 2 * 2 + 1 →
          let cc := (Z.of_nat i - 1)%Z in
          let sum := sum_of comps_M cloud_B cc (length comps_M) in
          region_sizes_ d' !! i = Some (count_of comps_M cc (length comps_M)) ∧
          means_storage_ d' !! i =
            Some (if decide (i = 0)
                  then float3.mk (float3.x sum) (float3.y sum) F32.zero
                  else sum).
Proof.
  eexists. split; [by vm_compute|]. split; [vm_compute; reflexivity|].
  apply (process_leaves_counts_and_sums 25 fresh 2 2 labels_M comps_M cloud_B 1);
    [by vm_compute|vm_compute; reflexivity].
Defined.

Lemma sum_sizes_replicate n : sum_sizes (replicate n 0%Z) = 0%Z.
Proof. induction n as [|n IH]; simpl; [done|]. exact IH. Qed.

Lemma sum_sizes_insert (l : list Z) i r v :
  l !! i = Some r → sum_sizes (<[i := v]> l) = (sum_sizes l - r + v)%Z.
Proof.
  revert i. induction l as [|a l IH]; intros [|i] Hi; simplify_eq/=; [lia|].
  rewrite (IH i Hi). lia.
Qed.

Lemma accumulate_counts_one dst cloud size k s s' :
  (Z.of_nat k < INT_MAX)%Z →
  accumulated dst cloud size k s →
  accumulate cloud dst k s = Some s' →
  sum_sizes s'.2 = (sum_sizes s.2 + 1)%Z.
Proof.
  intros Hk (Hl1 & Hl2 & Hs & _) Hstep. destruct s as [means rsizes].
  unfold accumulate in Hstep. simpl in *.
  destruct (cloud !! k) as [p|]; [|done].
  destruct (dst !! k) as [cc|]; [|done]. simpl in Hstep.
  destruct (shifted cc) as [i|] eqn:Hi; [|done]. simpl in Hstep.
  destruct (means !! i) as [m|]; [|done].
  destruct (rsizes !! i) as [r|] eqn:Hr; [|done].
  simpl in Hstep. injection Hstep as <-. simpl.
  rewrite (sum_sizes_insert _ _ _ _ Hr).
  assert (i < size) as Hlt by (apply lookup_lt_Some in Hr; lia).
  destruct (Hs i Hlt) as [_ Hcount]. rewrite Hr in Hcount. injection Hcount as ->.
  rewrite to_int_small; [lia|].
  pose proof (count_of_bounds dst (Z.of_nat i - 1) k). unfold INT_MAX in *. lia.
Qed.

(** X8. Every pixel is counted once: after [process] the region sizes,
    that of the sentinel included, add up to the number of pixels. *)
Theorem region_sizes_add_up NUM_PARTS d rows cols labels comps cloud min_pts d' :
  (Z.of_nat (length comps) ≤ INT_MAX)%Z →
  process NUM_PARTS d rows cols labels comps cloud min_pts = Some d' →
  sum_sizes (region_sizes_ d') = Z.of_nat (length comps).
Proof.
  intros Hn Hrun.
  destruct (process_Some _ _ _ _ _ _ _ _ _ Hrun)
    as (means0 & rsizes & means & remap & bm & Hloop & _ & _ & ->). simpl.
  apply (for_each_invariant
           (λ k s, accumulated comps cloud (rows * cols + 1) k s ∧
                   sum_sizes s.2 = Z.of_nat k)) in Hloop as [_ Hsum]; [done| |].
  { split; [apply accumulated_start|apply sum_sizes_replicate]. }
  intros k a b Hk [Hacc Hsum] Hstep. split.
  - eapply accumulate_keeps; [|done..]. lia.
  - assert (Z.of_nat k < INT_MAX)%Z as Hk' by lia.
    rewrite (accumulate_counts_one _ _ _ _ _ _ Hk' Hacc Hstep). lia.
Qed.

Lemma region_sizes_add_up_witness :
  ∃ d', (Z.of_nat (length comps_M) ≤ INT_MAX)%Z ∧
        process 25 fresh 2 2 labels_M comps_M cloud_B 1 = Some d' ∧
        sum_sizes (region_sizes_ d') = Z.of_nat (length comps_M).
Proof.
  eexists. split; [by vm_compute|]. split; [vm_compute; reflexivity|].
  apply (region_sizes_add_up 25 fresh 2 2 labels_M comps_M cloud_B 1);
    [by vm_compute|vm_compute; reflexivity].
Defined.

(** ** The remap table and the blobs *)

Lemma process_remap NUM_PARTS d rows cols labels comps cloud min_pts d' :
  (Z.of_nat (length comps) ≤ INT_MAX)%Z →
  process NUM_PARTS d rows cols labels comps cloud min_pts = Some d' →
  let alive := survives comps cloud min_pts (max_cluster_size_ d) in
  ∀ c v, remap_ d' !! c = Some v →
    (alive (Z.of_nat c) = true → Z.of_nat c ∈ comps →
       ∃ l i j0, v = Z.of_nat i ∧
                 founders labels comps alive l (length comps) !! i = Some j0 ∧
                 comps !! j0 = Some (Z.of_nat c)) ∧
    (¬ (alive (Z.of_nat c) = true ∧ Z.of_nat c ∈ comps) → v = (-1)%Z).
Proof.
  intros Hn Hrun alive c v Hv.
  destruct (process_facts _ _ _ _ _ _ _ _ _ Hn Hrun)
    as (means0 & bm & Hacc & Hinv & (_ & _ & _ & Hremap & _) & _). simpl in *.
  pose proof (λ cc, passes_survives _ _ _ _ _ _ min_pts (max_cluster_size_ d) cc
                               Hacc Hinv) as Hpass.
  destruct (Hremap c v Hv) as [H1 H2]. rewrite take_ge in H1, H2 by done.
  rewrite Hpass in H1, H2. split; [|done].
  intros Ha Hin. destruct (H1 Ha Hin) as (l & i & j0 & -> & Hf & Hd).
  exists l, i, j0. split_and!; [done| |done].
  by rewrite <- (founders_ext _ _ _ alive) by done.
Qed.

(** The blob of a founder. *)
Lemma founder_blob NUM_PARTS d rows cols labels comps cloud min_pts d' l i j0 :
  (Z.of_nat (length comps) ≤ INT_MAX)%Z →
  process NUM_PARTS d rows cols labels comps cloud min_pts = Some d' →
  founders labels comps (survives comps cloud min_pts (max_cluster_size_ d)) l
           (length comps) !! i = Some j0 →
  ∃ row b cc, blob_matrix_ d' !! l = Some row ∧ row !! i = Some b ∧
              first_member b = Some (Z.of_nat j0) ∧ comps !! j0 = Some cc ∧
              ∃ c, cc = Z.of_nat c ∧ remap_ d' !! c = Some (Z.of_nat i).
Proof.
  intros Hn Hrun Hf.
  destruct (founders_lookup _ _ _ _ _ _ _ Hf) as (_ & Hl & cc & Hd & Hfirst & Ha).
  destruct (process_blobs _ _ _ _ _ _ _ _ _ Hn Hrun) as (_ & Hrows & _ & Hplaced & _).
  destruct (Hplaced j0 l cc Hl Hd Ha)
    as (c & i' & row & b & l0 & j1 & -> & Hr & Hf1 & Hd1 & Hrow & Hb & _).
  destruct (founders_lookup _ _ _ _ _ _ _ Hf1) as (_ & Hl1 & cc1 & Hd1' & Hfirst1 & _).
  assert (cc1 = Z.of_nat c) as -> by congruence.
  assert (j1 = j0) as -> by (by eapply first_pixel_unique).
  assert (l0 = l) as -> by congruence.
  assert (i' = i) as ->
    by (by eapply NoDup_lookup; [apply (NoDup_founders labels comps)|..]).
  destruct (Hrows l row Hrow) as [_ He].
  apply (f_equal (.!! i)) in He. rewrite !list_lookup_fmap, Hb, Hf in He. simpl in He.
  exists row, b, (Z.of_nat c). split_and!; [done|done|by injection He|done|by eauto].
Qed.

(** X9. After [process], entry [c] of the remap table is [-1] exactly where
    component [c] does not occur in the frame or does not survive the
    filter; otherwise it is the position, in its row, of the blob whose
    first member is the first pixel of component [c]. *)
Theorem remap_marks_the_blobs NUM_PARTS d rows cols labels comps cloud min_pts d' :
  (Z.of_nat (length comps) ≤ INT_MAX)%Z →
  process NUM_PARTS d rows cols labels comps cloud min_pts = Some d' →
  ∀ c v, remap_ d' !! c = Some v →
    (v = (-1)%Z ↔
       ¬ (survives comps cloud min_pts (max_cluster_size_ d) (Z.of_nat c) = true ∧
          Z.of_nat c ∈ comps)) ∧
    (v ≠ (-1)%Z →
       ∃ l i row b j0,
         v = Z.of_nat i ∧ blob_matrix_ d' !! l = Some row ∧ row !! i = Some b ∧
         first_member b = Some (Z.of_nat j0) ∧ comps !! j0 = Some (Z.of_nat c) ∧
         Z.of_nat c ∉ take j0 comps).
Proof.
  intros Hn Hrun c v Hv.
  destruct (process_remap _ _ _ _ _ _ _ _ _ Hn Hrun c v Hv) as [H1 H2].
  assert (v ≠ (-1)%Z →
          survives comps cloud min_pts (max_cluster_size_ d) (Z.of_nat c) = true ∧
          Z.of_nat c ∈ comps) as Hback.
  { intros Hne.
    destruct (survives comps cloud min_pts (max_cluster_size_ d) (Z.of_nat c)) eqn:Ha;
      [|exfalso; apply Hne, H2; by intros [? _]].
    split; [done|].
    destruct (decide (Z.of_nat c ∈ comps)) as [|Hin]; [done|].
    exfalso. apply Hne, H2. by intros [_ ?]. }
  split.
  - split.
    + intros -> [Ha Hin]. destruct (H1 Ha Hin) as (? & ? & ? & ? & _). lia.
    + done.
  - intros Hne. destruct (Hback Hne) as [Ha Hin].
    destruct (H1 Ha Hin) as (l & i & j0 & -> & Hf & Hd).
    destruct (founder_blob _ _ _ _ _ _ _ _ _ _ _ _ Hn Hrun Hf)
      as (row & b & cc & Hrow & Hb & Hfm & Hd' & _).
    destruct (founders_lookup _ _ _ _ _ _ _ Hf) as (_ & _ & cc' & Hd'' & Hfirst & _).
    exists l, i, row, b, j0. split_and!; [done..|]. congruence.
Qed.

Lemma remap_marks_the_blobs_witness :
  ∃ d', (Z.of_nat (length comps_M) ≤ INT_MAX)%Z ∧
    process 25 fresh 2 2 labels_M comps_M cloud_B 1 = Some d' ∧
    ∀ c v, remap_ d' !! c = Some v →
      (v = (-1)%Z ↔
         ¬ (survives comps_M cloud_B 1 (max_cluster_size_ fresh) (Z.of_nat c) = true ∧
            Z.of_nat c ∈ comps_M)) ∧
      (v ≠ (-1)%Z →
         ∃ l i row b j0,
           v = Z.of_nat i ∧ blob_matrix_ d' !! l = Some row ∧ row !! i = Some b ∧
           first_member b = Some (Z.of_nat j0) ∧ comps_M !! j0 = Some (Z.of_nat c) ∧
           Z.of_nat c ∉ take j0 comps_M).
Proof.
  eexists. split; [by vm_compute|]. split; [vm_compute; reflexivity|].
  apply (remap_marks_the_blobs 25 fresh 2 2 labels_M comps_M cloud_B 1);
    [by vm_compute|vm_compute; reflexivity].
Defined.

(** X10. Every surviving component that occurs in the frame has exactly one
    blob: one position of the matrix holds a blob whose first member is a
    pixel of the component, and no other position does. *)
Theorem one_blob_for_each_survivor NUM_PARTS d rows cols labels comps cloud min_pts d' :
  (Z.of_nat (length comps) ≤ INT_MAX)%Z →
  process NUM_PARTS d rows cols labels comps cloud min_pts = Some d' →
  ∀ cc, cc ∈ comps → survives comps cloud min_pts (max_cluster_size_ d) cc = true →
    ∃ l i,
      (∃ row b j0, blob_matrix_ d' !! l = Some row ∧ row !! i = Some b ∧
                   first_member b = Some (Z.of_nat j0) ∧ comps !! j0 = Some cc) ∧
      ∀ l' i' row' b' j0',
        blob_matrix_ d' !! l' = Some row' → row' !! i' = Some b' →
        first_member b' = Some (Z.of_nat j0') → comps !! j0' = Some cc →
        l' = l ∧ i' = i.
Proof.
  intros Hn Hrun cc Hin Ha.
  pose proof (survives_not_sentinel _ _ _ _ _ Ha) as Hne.
  destruct (process_facts _ _ _ _ _ _ _ _ _ Hn Hrun)
    as (means0 & bm & (_ & _ & _ & Hslots) & _ & (Hlen & _) & _). simpl in *.
  apply list_elem_of_lookup_1 in Hin as [j Hj].
  destruct (Hslots j cc (lookup_lt_Some _ _ _ Hj) Hj) as [Hlo Hhi].
  assert (cc = Z.of_nat (Z.to_nat cc)) as Hcc by lia.
  destruct (lookup_lt_is_Some_2 (remap_ d') (Z.to_nat cc)) as [v Hv]; [lia|].
  destruct (process_remap _ _ _ _ _ _ _ _ _ Hn Hrun _ v Hv) as [H1 _].
  rewrite <- Hcc in H1.
  destruct H1 as (l & i & j0 & -> & Hf & Hd); [done|by eapply list_elem_of_lookup_2|].
  destruct (founder_blob _ _ _ _ _ _ _ _ _ _ _ _ Hn Hrun Hf)
    as (row & b & cc' & Hrow & Hb & Hfm & Hd' & _).
  destruct (founders_lookup _ _ _ _ _ _ _ Hf) as (_ & Hl & cc1 & Hd1 & Hfirst & _).
  assert (cc1 = cc) as -> by congruence.
  exists l, i. split; [by exists row, b, j0|].
  intros l' i' row' b' j0' Hrow' Hb' Hfm' Hd''.
  destruct (process_blobs _ _ _ _ _ _ _ _ _ Hn Hrun) as (_ & Hrows & _).
  destruct (Hrows l' row' Hrow') as [_ He].
  apply (f_equal (.!! i')) in He. rewrite !list_lookup_fmap, Hb' in He. simpl in He.
  destruct (founders _ _ _ _ _ !! i') as [j1|] eqn:Hf'; [|done].
  rewrite Hfm' in He. assert (j1 = j0') as -> by (injection He; lia).
  destruct (founders_lookup _ _ _ _ _ _ _ Hf') as (_ & Hl' & cc2 & Hd2 & Hfirst' & _).
  assert (cc2 = cc) as -> by congruence.
  assert (j0' = j0) as -> by (by eapply first_pixel_unique).
  assert (l' = l) as -> by congruence. split; [done|].
  by eapply NoDup_lookup; [apply (NoDup_founders labels comps)|..].
Qed.

Lemma one_blob_for_each_survivor_witness :
  ∃ d', (Z.of_nat (length comps_S) ≤ INT_MAX)%Z ∧
    process 25 fresh 2 2 labels_S comps_S cloud_B 1 = Some d' ∧
    ∀ cc, cc ∈ comps_S → survives comps_S cloud_B 1 (max_cluster_size_ fresh) cc = true →
      ∃ l i,
        (∃ row b j0, blob_matrix_ d' !! l = Some row ∧ row !! i = Some b ∧
                     first_member b = Some (Z.of_nat j0) ∧ comps_S !! j0 = Some cc) ∧
        ∀ l' i' row' b' j0',
          blob_matrix_ d' !! l' = Some row' → row' !! i' = Some b' →
          first_member b' = Some (Z.of_nat j0') → comps_S !! j0' = Some cc →
          l' = l ∧ i' = i.
Proof.
  eexists. split; [by vm_compute|]. split; [vm_compute; reflexivity|].
  apply (one_blob_for_each_survivor 25 fresh 2 2 labels_S comps_S cloud_B 1);
    [by vm_compute|vm_compute; reflexivity].
Defined.

(** ** The members of the blobs *)

Lemma elem_of_concat {A : Type} (x : A) (ls : list (list A)) :
  x ∈ concat ls ↔ ∃ l, l ∈ ls ∧ x ∈ l.
Proof.
  induction ls as [|l ls IH]; simpl.
  - split; [by intros ?%elem_of_nil|by intros (? & ?%elem_of_nil & _)].
  - rewrite elem_of_app, IH. split.
    + intros [?|(l' & ? & ?)]; [exists l|exists l']; by rewrite elem_of_cons; eauto.
    + intros (l' & [->|?]%elem_of_cons & ?); [by left|right; by exists l'].
Qed.

Lemma elem_of_all_members (bm : BlobMatrix) l row i b m :
  bm !! l = Some row → row !! i = Some b → m ∈ Blob2.indices b → m ∈ all_members bm.
Proof.
  intros Hrow Hb Hm. unfold all_members. apply elem_of_concat.
  exists (Blob2.indices b). split; [|done].
  apply list_elem_of_fmap_2, elem_of_concat. exists row.
  split; by eapply list_elem_of_lookup_2.
Qed.

Lemma length_all_members (bm : BlobMatrix) : length (all_members bm) = total_members bm.
Proof.
  unfold all_members, total_members.
  induction (concat bm) as [|b bs IH]; simpl; [done|].
  rewrite length_app. f_equal. exact IH.
Qed.

(** A run of [process] reads the label of every pixel of the component
    grid. *)
Lemma process_reads_labels NUM_PARTS d rows cols labels comps cloud min_pts d' :
  process NUM_PARTS d rows cols labels comps cloud min_pts = Some d' →
  ∀ k, k < length comps → is_Some (labels !! k).
Proof.
  intros Hrun k Hk.
  destruct (process_Some _ _ _ _ _ _ _ _ _ Hrun)
    as (means0 & rsizes & means & remap & bm & _ & _ & Hloop & _).
  destruct (for_each_ran _ _ _ _ Hloop k Hk) as ([remap0 bm0] & s' & Hstep).
  unfold materialize in Hstep. by destruct (labels !! k).
Qed.

(** The members of all blobs are the surviving pixels, in some order. *)
Lemma every_member_alive NUM_PARTS d rows cols labels comps cloud min_pts d' :
  (Z.of_nat (length comps) ≤ INT_MAX)%Z →
  process NUM_PARTS d rows cols labels comps cloud min_pts = Some d' →
  all_members (blob_matrix_ d') ≡ₚ
    Z.of_nat <$> alive_pixels comps (survives comps cloud min_pts (max_cluster_size_ d))
                              (length comps).
Proof.
  intros Hn Hrun.
  destruct (process_blobs _ _ _ _ _ _ _ _ _ Hn Hrun) as (_ & _ & Hcount & Hplaced & _).
  symmetry. apply NoDup_Permutation_bis.
  - apply NoDup_ListNoDup, (NoDup_fmap_2 _), NoDup_filter, NoDup_seq.
  - by rewrite length_all_members, Hcount, length_fmap.
  - intros m Hm%list_elem_of_In. apply list_elem_of_In.
    apply list_elem_of_fmap in Hm as (j & -> & Hj).
    apply list_elem_of_filter in Hj as [Ha Hj]. apply elem_of_seq in Hj.
    unfold pixel_alive in Ha.
    destruct (comps !! j) as [cc|] eqn:Hcc; [|done].
    destruct (process_reads_labels _ _ _ _ _ _ _ _ _ Hrun j) as [l Hl]; [lia|].
    destruct (Hplaced j l cc Hl Hcc)
      as (? & i & row & b & ? & ? & _ & _ & _ & _ & Hrow & Hb & Hin);
      [by apply Is_true_true|].
    by eapply elem_of_all_members.
Qed.

(** X11. The members of all blobs together are the surviving pixels of the
    frame, each one once: no pixel is in two blobs or twice in one, whatever
    the labels are. *)
Theorem every_survivor_is_a_member_once
    NUM_PARTS d rows cols labels comps cloud min_pts d' :
  (Z.of_nat (length comps) ≤ INT_MAX)%Z →
  process NUM_PARTS d rows cols labels comps cloud min_pts = Some d' →
  all_members (blob_matrix_ d') ≡ₚ
    Z.of_nat <$> alive_pixels comps (survives comps cloud min_pts (max_cluster_size_ d))
                              (length comps) ∧
  NoDup (all_members (blob_matrix_ d')).
Proof.
  intros Hn Hrun.
  pose proof (every_member_alive _ _ _ _ _ _ _ _ _ Hn Hrun) as Hperm.
  split; [done|]. rewrite Hperm.
  apply (NoDup_fmap_2 _), NoDup_filter, NoDup_seq.
Qed.

Lemma every_survivor_is_a_member_once_witness :
  ∃ d', (Z.of_nat (length comps_S) ≤ INT_MAX)%Z ∧
    process 25 fresh 2 2 labels_S comps_S cloud_B 1 = Some d' ∧
    all_members (blob_matrix_ d') ≡ₚ
      Z.of_nat <$> alive_pixels comps_S
                     (survives comps_S cloud_B 1 (max_cluster_size_ fresh))
                     (length comps_S) ∧
    NoDup (all_members (blob_matrix_ d')).
Proof.
  eexists. split; [by vm_compute|]. split; [vm_compute; reflexivity|].
  apply (every_survivor_is_a_member_once 25 fresh 2 2 labels_S comps_S cloud_B 1);
    [by vm_compute|vm_compute; reflexivity].
Defined.

Lemma ordered_step remains lmap dst means rsizes min_pts max_size k remap bm s' :
  rows_ok lmap dst means rsizes min_pts max_size k bm → ordered bm →
  materialize_case remains lmap dst means rsizes min_pts max_size k remap bm s' →
  ordered s'.2.
Proof.
  intros Hrows Hord Hcase. unfold ordered in *.
  destruct Hcase as [| label cc m r c row _ _ _ _ _ _ Hrow
                     | label cc c i row b _ _ _ _ _ Hrow Hb]; simpl; [done|..].
  - apply Forall_insert; [done|]. apply Forall_app. split.
    + by eapply Forall_lookup_1.
    + repeat constructor.
  - pose proof (Forall_lookup_1 _ _ _ _ Hord Hrow) as Hsorted.
    apply Forall_insert; [done|]. apply Forall_insert; [done|]. simpl.
    apply StronglySorted_app_2.
    + intros m m' Hm ->%list_elem_of_singleton.
      destruct (Hrows _ _ Hrow) as [Hok _].
      destruct (Forall_lookup_1 _ _ _ _ Hok Hb) as (_ & Hmem & _).
      rewrite Forall_forall in Hmem. destruct (Hmem m Hm) as (j & -> & Hj & _). lia.
    + exact (Forall_lookup_1 _ _ _ _ Hsorted Hb).
    + repeat constructor.
Qed.

Lemma same_content_ordered bm bm' :
  Forall2 (Forall2 same_content) bm bm' → ordered bm → ordered bm'.
Proof.
  unfold ordered. induction 1 as [|row row' bm bm' Hrow _ IH]; [done|].
  intros [Hr Hbm]%Forall_cons. constructor; [|by apply IH].
  clear -Hrow Hr. induction Hrow as [|b b' row row' (_ & _ & Hi) _ IH]; [done|].
  apply Forall_cons in Hr as [Hb Hr]. constructor; [by rewrite <- Hi|by apply IH].
Qed.

(** X12. The members of every blob are in strictly increasing order: a blob
    lists its pixels in raster order. *)
Theorem members_in_raster_order NUM_PARTS d rows cols labels comps cloud min_pts d' :
  (Z.of_nat (length comps) ≤ INT_MAX)%Z →
  process NUM_PARTS d rows cols labels comps cloud min_pts = Some d' →
  ∀ row b, row ∈ blob_matrix_ d' → b ∈ row →
    StronglySorted Z.lt (Blob2.indices b).
Proof.
  intros Hn Hrun.
  destruct (process_Some _ _ _ _ _ _ _ _ _ Hrun)
    as (means0 & rsizes & means & remap & bm & _ & _ & Hloop & ->). simpl.
  assert (ordered bm) as Hord.
  { apply (for_each_invariant
             (λ k s, materialized labels comps means rsizes min_pts (max_cluster_size_ d)
                                  (rows * cols) NUM_PARTS k s ∧ ordered s.2))
      in Hloop as [_ Hord]; [done| |].
    - split; [apply materialized_start|]. simpl. unfold ordered.
      by apply Forall_replicate.
    - intros k a b Hk [Hmat Hord] Hstep.
      assert (Z.of_nat k < INT_MAX)%Z as Hk' by lia.
      destruct (materialized_step _ _ _ _ _ _ _ _ _ _ _ _ Hk' Hmat Hstep) as [Hcase Hmat'].
      split; [done|]. destruct Hmat as (_ & _ & Hrows & _).
      by eapply ordered_step. }
  pose proof (same_content_ordered _ _ (number_blobs_content 0 bm) Hord) as Hord'.
  intros row b Hrow Hb. unfold ordered in Hord'.
  rewrite Forall_forall in Hord'. specialize (Hord' row Hrow).
  rewrite Forall_forall in Hord'. by apply Hord'.
Qed.

Lemma members_in_raster_order_witness :
  ∃ d', (Z.of_nat (length comps_S) ≤ INT_MAX)%Z ∧
    process 25 fresh 2 2 labels_S comps_S cloud_B 1 = Some d' ∧
    ∀ row b, row ∈ blob_matrix_ d' → b ∈ row →
      StronglySorted Z.lt (Blob2.indices b).
Proof.
  eexists. split; [by vm_compute|]. split; [vm_compute; reflexivity|].
  apply (members_in_raster_order 25 fresh 2 2 labels_S comps_S cloud_B 1);
    [by vm_compute|vm_compute; reflexivity].
Defined.

(** ** What a run requires, and the thresholds *)

(** X13. A run of [process] that ends has kept every read inside its
    buffers: the cloud and the label grid have an entry for every pixel of
    the component grid, every component id lies between [-1] and
    [rows * cols - 1], and every pixel of a surviving component carries a
    label below [NUM_PARTS]. *)
Theorem process_stays_in_range NUM_PARTS d rows cols labels comps cloud min_pts d' :
  (Z.of_nat (length comps) ≤ INT_MAX)%Z →
  process NUM_PARTS d rows cols labels comps cloud min_pts = Some d' →
  length comps ≤ length cloud ∧
  length comps ≤ length labels ∧
  Forall (λ cc, -1 ≤ cc < Z.of_nat (rows * cols))%Z comps ∧
  ∀ j l cc, labels !! j = Some l → comps !! j = Some cc →
    survives comps cloud min_pts (max_cluster_size_ d) cc = true → l < NUM_PARTS.
Proof.
  intros Hn Hrun.
  destruct (process_Some _ _ _ _ _ _ _ _ _ Hrun)
    as (means0 & rsizes & means & remap & bm & Hloop & _ & _ & _).
  assert (∀ k, k < length comps → is_Some (cloud !! k)) as Hcloud.
  { intros k Hk.
    destruct (for_each_ran _ _ _ _ Hloop k Hk) as ([m0 r0] & s' & Hstep).
    unfold accumulate in Hstep. by destruct (cloud !! k). }
  split_and!.
  - destruct (decide (length comps ≤ length cloud)) as [|Hlt]; [done|].
    destruct (Hcloud (length cloud)) as [p Hp%lookup_lt_Some]; lia.
  - destruct (decide (length comps ≤ length labels)) as [|Hlt]; [done|].
    destruct (process_reads_labels _ _ _ _ _ _ _ _ _ Hrun (length labels))
      as [l Hl%lookup_lt_Some]; lia.
  - destruct (process_facts _ _ _ _ _ _ _ _ _ Hn Hrun)
      as (? & ? & (_ & _ & _ & Hslots) & _).
    apply Forall_lookup_2. intros j cc Hj.
    destruct (Hslots j cc (lookup_lt_Some _ _ _ Hj) Hj). lia.
  - intros j l cc Hl Hcc Ha.
    destruct (process_blobs _ _ _ _ _ _ _ _ _ Hn Hrun) as (Hlen & _ & _ & Hplaced & _).
    destruct (Hplaced j l cc Hl Hcc Ha)
      as (? & ? & row & ? & ? & ? & _ & _ & _ & _ & Hrow%lookup_lt_Some & _).
    by rewrite Hlen in Hrow.
Qed.

Lemma process_stays_in_range_witness :
  ∃ d', (Z.of_nat (length comps_M) ≤ INT_MAX)%Z ∧
    process 25 fresh 2 2 labels_M comps_M cloud_B 1 = Some d' ∧
    length comps_M ≤ length cloud_B ∧
    length comps_M ≤ length labels_M ∧
    Forall (λ cc, -1 ≤ cc < Z.of_nat (2 * 2))%Z comps_M ∧
    ∀ j l cc, labels_M !! j = Some l → comps_M !! j = Some cc →
      survives comps_M cloud_B 1 (max_cluster_size_ fresh) cc = true → l < 25.
Proof.
  eexists. split; [by vm_compute|]. split; [vm_compute; reflexivity|].
  eapply (process_stays_in_range 25 fresh 2 2 labels_M comps_M cloud_B 1);
    [by vm_compute|vm_compute; reflexivity].
Defined.

Lemma survives_count dst cloud min_pts max_size cc :
  survives dst cloud min_pts max_size cc = true →
  (min_pts ≤ count_of dst cc (length dst) ≤ max_size)%Z ∧
  F32.neq0 (float3.z (sum_of dst cloud cc (length dst))) = true ∧ cc ≠ (-1)%Z.
Proof.
  unfold survives, is_valid. rewrite !andb_true_iff, bool_decide_eq_true.
  intros (Hcc & (Hz & Hlo%Z.leb_le) & Hhi%Z.leb_le). done.
Qed.

Lemma survives_mono dst cloud min_pts max_size min_pts' max_size' cc :
  (min_pts' ≤ min_pts)%Z → (max_size ≤ max_size')%Z →
  survives dst cloud min_pts max_size cc = true →
  survives dst cloud min_pts' max_size' cc = true.
Proof.
  intros Hmin Hmax ([Hlo Hhi] & Hz & Hcc)%survives_count.
  unfold survives, is_valid. rewrite !andb_true_iff, bool_decide_eq_true.
  split_and!; [done|done|apply Z.leb_le; lia|apply Z.leb_le; lia].
Qed.

(** X14. With thresholds no component can meet, a lower bound above the
    upper bound or above the number of pixels, a run of [process] leaves
    every row of the matrix empty. *)
Theorem unmeetable_thresholds_give_no_blob
    NUM_PARTS d rows cols labels comps cloud min_pts d' :
  (Z.of_nat (length comps) ≤ INT_MAX)%Z →
  process NUM_PARTS d rows cols labels comps cloud min_pts = Some d' →
  (max_cluster_size_ d < min_pts ∨ Z.of_nat (length comps) < min_pts)%Z →
  blob_matrix_ d' = replicate NUM_PARTS [].
Proof.
  intros Hn Hrun Hth.
  destruct (process_blobs _ _ _ _ _ _ _ _ _ Hn Hrun) as (Hlen & Hrows & _).
  apply list_eq_same_length with NUM_PARTS; [by rewrite length_replicate|done|].
  intros l row row' Hl Hrow [-> _]%lookup_replicate.
  destruct (Hrows l row Hrow) as [_ He].
  destruct (founders labels comps
              (survives comps cloud min_pts (max_cluster_size_ d)) l (length comps))
    as [|j0 fs] eqn:Hf.
  - by destruct row.
  - exfalso.
    destruct (founders_lookup labels comps
                (survives comps cloud min_pts (max_cluster_size_ d)) l (length comps) 0 j0)
      as (_ & _ & cc & _ & _ & ([Hlo Hhi] & _)%survives_count); [by rewrite Hf|].
    pose proof (count_of_bounds comps cc (length comps)). lia.
Qed.

Lemma unmeetable_thresholds_give_no_blob_witness :
  ∃ d', (Z.of_nat (length comps_S) ≤ INT_MAX)%Z ∧
    process 25 fresh 2 2 labels_S comps_S cloud_B 5 = Some d' ∧
    (max_cluster_size_ fresh < 5 ∨ Z.of_nat (length comps_S) < 5)%Z ∧
    blob_matrix_ d' = replicate 25 [].
Proof.
  eexists. split; [by vm_compute|]. split; [vm_compute; reflexivity|].
  assert (max_cluster_size_ fresh < 5 ∨ Z.of_nat (length comps_S) < 5)%Z as Hth
    by (right; by vm_compute).
  split; [exact Hth|].
  apply (unmeetable_thresholds_give_no_blob 25 fresh 2 2 labels_S comps_S cloud_B 5);
    [by vm_compute|vm_compute; reflexivity|exact Hth].
Defined.

(** X15. Loosening the thresholds never loses a member: on the same frame,
    every pixel that is in a blob under the bounds [min_pts] and
    [max_cluster_size_ d] is in a blob under any lower [min_pts] and higher
    [max_cluster_size_]. *)
Theorem looser_thresholds_keep_members
    NUM_PARTS d1 d2 rows cols labels comps cloud min1 min2 d1' d2' :
  (Z.of_nat (length comps) ≤ INT_MAX)%Z →
  (min2 ≤ min1)%Z → (max_cluster_size_ d1 ≤ max_cluster_size_ d2)%Z →
  process NUM_PARTS d1 rows cols labels comps cloud min1 = Some d1' →
  process NUM_PARTS d2 rows cols labels comps cloud min2 = Some d2' →
  all_members (blob_matrix_ d1') ⊆ all_members (blob_matrix_ d2').
Proof.
  intros Hn Hmin Hmax Hrun1 Hrun2 m.
  pose proof (every_member_alive _ _ _ _ _ _ _ _ _ Hn Hrun1) as Hp1.
  pose proof (every_member_alive _ _ _ _ _ _ _ _ _ Hn Hrun2) as Hp2.
  rewrite Hp1, Hp2, !list_elem_of_fmap.
  intros (j & -> & Hj). exists j. split; [done|].
  unfold alive_pixels in *. rewrite list_elem_of_filter in *.
  destruct Hj as [Ha Hj]. split; [|done].
  unfold pixel_alive in *. destruct (comps !! j) as [cc|]; [|done].
  apply Is_true_true. apply Is_true_true in Ha. by eapply survives_mono.
Qed.

Lemma looser_thresholds_keep_members_witness :
  ∃ d1' d2', (Z.of_nat (length comps_U) ≤ INT_MAX)%Z ∧
    (1 ≤ 3)%Z ∧ (max_cluster_size_ detector_A ≤ max_cluster_size_ fresh)%Z ∧
    process 25 detector_A 2 2 labels_U comps_U cloud_B 3 = Some d1' ∧
    process 25 fresh 2 2 labels_U comps_U cloud_B 1 = Some d2' ∧
    all_members (blob_matrix_ d1') ⊆ all_members (blob_matrix_ d2').
Proof.
  eexists _, _. split; [by vm_compute|]. split; [by vm_compute|].
  split; [by vm_compute|]. split; [vm_compute; reflexivity|].
  split; [vm_compute; reflexivity|].
  apply (looser_thresholds_keep_members 25 detector_A fresh 2 2 labels_U comps_U cloud_B
           3 1);
    [by vm_compute|by vm_compute|by vm_compute|vm_compute; reflexivity..].
Defined.

(** On that frame the stricter bounds keep the component of three pixels
    and drop the single pixel, which the looser bounds keep as well. *)
Lemma frame_U_members :
  ∃ d1' d2',
    process 25 detector_A 2 2 labels_U comps_U cloud_B 3 = Some d1' ∧
    process 25 fresh 2 2 labels_U comps_U cloud_B 1 = Some d2' ∧
    all_members (blob_matrix_ d1') = [0; 1; 2]%Z ∧
    all_members (blob_matrix_ d2') = [0; 1; 2; 3]%Z.
Proof. eexists _, _. split_and!; vm_compute; reflexivity. Qed.

(** ** What process does not write, and what it needs *)

(** X16. [process] never writes coefficient 3 of a mean: in every blob of
    the matrix it is what the storage held at the position of the blob when
    the blob was constructed there. *)
Theorem coefficient_3_is_never_written
    NUM_PARTS d rows cols labels comps cloud min_pts d' :
  (Z.of_nat (length comps) ≤ INT_MAX)%Z →
  process NUM_PARTS d rows cols labels comps cloud min_pts = Some d' →
  ∀ l row i b, blob_matrix_ d' !! l = Some row → row !! i = Some b →
    Vector4f.c3 (Blob2.mean b) = remains_ d l i.
Proof. intros Hn Hrun. by eapply process_keeps_remains. Qed.

Lemma coefficient_3_is_never_written_witness :
  ∃ d', (Z.of_nat (length comps_T) ≤ INT_MAX)%Z ∧
    process 25 detector_used 2 2 labels_T comps_T cloud_B 1 = Some d' ∧
    ∀ l row i b, blob_matrix_ d' !! l = Some row → row !! i = Some b →
      Vector4f.c3 (Blob2.mean b) = remains_ detector_used l i.
Proof.
  eexists. split; [by vm_compute|]. split; [vm_compute; reflexivity|].
  apply (coefficient_3_is_never_written 25 detector_used 2 2 labels_T comps_T cloud_B 1);
    [by vm_compute|vm_compute; reflexivity].
Defined.


